(** * Privacy scanner (src/scanner/scanner.py): model and properties

    The development embeds the detection-and-suppression engine of the
    scanner: the pattern catalogue, the allowlist check, the per-file scan
    loop, the path filter, the tree traversal, the report summary and the
    command-line driver.

    Conventions.  Text is a [string] whose characters are read as the code
    points 0..255.  An exception raised by Python is a [Raise] result;
    visiting a path, reading a file, writing the report and printing are
    the events of a trace.  The two library functions applied to the
    rules of the allowlist, [re.search] and [PurePath.match], are
    parameters of the scanner ([re_search], [path_match]); [py_re_search]
    and [py_path_match] model them on a fragment of their pattern
    languages and serve in the scenarios. *)

From Stdlib Require Import List Bool Arith Lia ZArith.
From Stdlib Require Import Ascii String.
From Stdlib Require Import Sorted Permutation.
Import ListNotations.

Set Implicit Arguments.

Local Open Scope string_scope.
Local Open Scope list_scope.
Local Open Scope nat_scope.

(** ** Characters and the string methods the scanner calls *)

Module Text.

Definition code (c : ascii) : nat := nat_of_ascii c.

Definition between (lo hi n : nat) : bool := (lo <=? n) && (n <=? hi).

(** [str.isspace] on one character, which is also what the pattern
    escape [\s] accepts. *)
Definition is_space (c : ascii) : bool :=
  let n := code c in
  between 9 13 n || between 28 32 n || (n =? 133) || (n =? 160).

(** The pattern escape [\d]: decimal digits. *)
Definition is_digit (c : ascii) : bool := between 48 57 (code c).

(** The pattern escape [\w]: alphanumeric characters and the underscore. *)
Definition is_word (c : ascii) : bool :=
  let n := code c in
  between 48 57 n || between 65 90 n || between 97 122 n || (n =? 95)
  || (n =? 170) || (n =? 181) || (n =? 186)
  || between 178 179 n || (n =? 185) || between 188 190 n
  || between 192 214 n || between 216 246 n || between 248 255 n.

(** Case folding used by [re.IGNORECASE]. *)
Definition lower (c : ascii) : ascii :=
  let n := code c in
  if between 65 90 n || (between 192 222 n && negb (n =? 215))
  then ascii_of_nat (n + 32) else c.

(** The other character, if any, that [lower] sends to a folded one. *)
Definition upper (c : ascii) : ascii :=
  let n := code c in
  if between 97 122 n || (between 224 254 n && negb (n =? 247))
  then ascii_of_nat (n - 32) else c.

(** Line boundaries of [str.splitlines]. *)
Definition is_linebreak (c : ascii) : bool :=
  let n := code c in
  between 10 13 n || between 28 30 n || (n =? 133).

Definition chars (s : string) : list ascii := list_ascii_of_string s.
Definition text (l : list ascii) : string := string_of_list_ascii l.

Fixpoint drop_while (p : ascii -> bool) (l : list ascii) : list ascii :=
  match l with
  | [] => []
  | c :: t => if p c then drop_while p t else l
  end.

(** [str.strip()] *)
Definition strip_chars (l : list ascii) : list ascii :=
  rev (drop_while is_space (rev (drop_while is_space l))).

Definition strip (s : string) : string := text (strip_chars (chars s)).

(** [str.rstrip("/")] *)
Definition rstrip_slash (s : string) : string :=
  text (rev (drop_while (Ascii.eqb "/") (rev (chars s)))).

(** [str.startswith] *)
Definition startswith (s pre : string) : bool := String.prefix pre s.

(** [str.splitlines()]: [cur] holds the current line, reversed. *)
Fixpoint splitlines_from (cur : list ascii) (l : list ascii)
  : list (list ascii) :=
  match l with
  | [] => match cur with [] => [] | _ => [rev cur] end
  | c :: t =>
      if (code c =? 13) then
        match t with
        | c' :: t' =>
            if (code c' =? 10) then rev cur :: splitlines_from [] t'
            else rev cur :: splitlines_from [] t
        | [] => rev cur :: splitlines_from [] t
        end
      else if is_linebreak c then rev cur :: splitlines_from [] t
      else splitlines_from (c :: cur) t
  end.

Definition splitlines (s : string) : list string :=
  map text (splitlines_from [] (chars s)).

(** ["/".join(parts)] *)
Fixpoint join_slash (parts : list string) : string :=
  match parts with
  | [] => ""
  | [p] => p
  | p :: rest => (p ++ "/" ++ join_slash rest)%string
  end.

Definition mem (s : string) (l : list string) : bool :=
  existsb (String.eqb s) l.

End Text.

(** ** The regular expressions of Python's [re] module

    A backtracking matcher in continuation-passing style: alternatives are
    tried in order and repetitions are greedy unless marked lazy, so that
    it finds the match [re] finds. *)

Module Re.
Import Text.

Inductive category := Digit | Space | Word.

Inductive item :=
| IChar (c : ascii)
| IRange (lo hi : ascii)
| ICat (neg : bool) (k : category).

Inductive anchor := Bol | Eol | Eos | WordB | NotWordB.

Inductive regex :=
| Empty
| Lit (c : ascii)
| Dot
| Set_ (neg : bool) (items : list item)
| At (a : anchor)
| Cat (r1 r2 : regex)
| Or (r1 r2 : regex)
| Repeat (lo : nat) (hi : option nat) (greedy : bool) (r : regex).

Definition in_category (k : category) (c : ascii) : bool :=
  match k with
  | Digit => is_digit c
  | Space => is_space c
  | Word => is_word c
  end.

Definition in_range (lo hi c : ascii) : bool :=
  between (code lo) (code hi) (code c).

(** Under [ic] (IGNORECASE) the character [c] has been folded already. *)
Definition in_item (ic : bool) (c : ascii) (i : item) : bool :=
  match i with
  | IChar x => Ascii.eqb (if ic then lower x else x) c
  | IRange lo hi => in_range lo hi c || (ic && in_range lo hi (upper c))
  | ICat neg k => xorb neg (in_category k c)
  end.

Definition in_set (ic neg : bool) (items : list item) (c : ascii) : bool :=
  xorb neg (existsb (in_item ic (if ic then lower c else c)) items).

Definition lit_eq (ic : bool) (x c : ascii) : bool :=
  if ic then Ascii.eqb (lower x) (lower c) else Ascii.eqb x c.

Definition word_before (prev : option ascii) : bool :=
  match prev with Some c => is_word c | None => false end.

Definition word_after (s : list ascii) : bool :=
  match s with c :: _ => is_word c | [] => false end.

Definition at_anchor (a : anchor) (prev : option ascii) (s : list ascii)
  : bool :=
  match a with
  | Bol => match prev with None => true | Some _ => false end
  | Eol => match s with
           | [] => true
           | [c] => code c =? 10
           | _ => false
           end
  | Eos => match s with [] => true | _ => false end
  | WordB => xorb (word_before prev) (word_after s)
  | NotWordB =>
      match prev, s with
      | None, [] => false
      | _, _ => negb (xorb (word_before prev) (word_after s))
      end
  end.

Definition below (count : nat) (hi : option nat) : bool :=
  match hi with Some h => count <? h | None => true end.

Definition same_place (last : option nat) (n : nat) : bool :=
  match last with Some m => m =? n | None => false end.

Section Matcher.
Variable ic : bool.
Variable R : Type.

(** [run r prev s k]: match [r] at the position whose preceding
    character is [prev] and whose remaining input is [s], then continue
    with [k].  A repetition stops iterating once an optional iteration
    consumed nothing. *)
Fixpoint run (r : regex) (prev : option ascii) (s : list ascii)
    (k : option ascii -> list ascii -> option R) {struct r} : option R :=
  match r with
  | Empty => k prev s
  | Lit x =>
      match s with
      | c :: t => if lit_eq ic x c then k (Some c) t else None
      | [] => None
      end
  | Dot =>
      match s with
      | c :: t => if code c =? 10 then None else k (Some c) t
      | [] => None
      end
  | Set_ neg items =>
      match s with
      | c :: t => if in_set ic neg items c then k (Some c) t else None
      | [] => None
      end
  | At a => if at_anchor a prev s then k prev s else None
  | Cat r1 r2 => run r1 prev s (fun p s' => run r2 p s' k)
  | Or r1 r2 =>
      match run r1 prev s k with
      | Some x => Some x
      | None => run r2 prev s k
      end
  | Repeat lo hi greedy r1 =>
      (fix loop (fuel count : nat) (last : option nat)
           (prev : option ascii) (s : list ascii) {struct fuel}
         : option R :=
         match fuel with
         | 0 => None
         | S fuel' =>
             if count <? lo then
               run r1 prev s (fun p s' => loop fuel' (S count) last p s')
             else if below count hi && negb (same_place last (List.length s))
             then
               if greedy then
                 match run r1 prev s
                         (fun p s' =>
                            loop fuel' (S count) (Some (List.length s)) p s')
                 with
                 | Some x => Some x
                 | None => k prev s
                 end
               else
                 match k prev s with
                 | Some x => Some x
                 | None =>
                     run r1 prev s
                       (fun p s' =>
                          loop fuel' (S count) (Some (List.length s)) p s')
                 end
             else k prev s
         end) (lo + List.length s + 2) 0 None prev s
  end.
End Matcher.

(** One attempt at one position; the result is the input left after the
    match.  With [must_advance] an empty match is rejected. *)
Definition match_at (ic : bool) (r : regex) (prev : option ascii)
    (s : list ascii) (must_advance : bool) : option (list ascii) :=
  run ic r prev s
    (fun _ s' =>
       if must_advance && (List.length s' =? List.length s) then None
       else Some s').

(** [pattern.search(text) is not None], from the given position on *)
Fixpoint search_from (ic : bool) (r : regex) (prev : option ascii)
    (s : list ascii) : bool :=
  match match_at ic r prev s false with
  | Some _ => true
  | None =>
      match s with
      | [] => false
      | c :: t => search_from ic r (Some c) t
      end
  end.

Definition search (ic : bool) (r : regex) (s : string) : bool :=
  search_from ic r None (chars s).

(** [pattern.finditer(text)]: the matched substrings, left to right.
    [skip] counts the characters of the previous match still to pass. *)
Fixpoint finditer_from (ic : bool) (r : regex) (prev : option ascii)
    (s : list ascii) (skip : nat) {struct s} : list (list ascii) :=
  let advance (n : nat) :=
    match s with
    | [] => []
    | c :: t => finditer_from ic r (Some c) t n
    end in
  match skip with
  | S n => advance n
  | 0 =>
      match match_at ic r prev s false with
      | None => advance 0
      | Some s' =>
          let n := List.length s - List.length s' in
          if n =? 0 then
            [] :: match match_at ic r prev s true with
                  | None => advance 0
                  | Some s'' =>
                      let m := List.length s - List.length s'' in
                      firstn m s :: advance (m - 1)
                  end
          else firstn n s :: advance (n - 1)
      end
  end.

Definition finditer (ic : bool) (r : regex) (s : string) : list string :=
  map text (finditer_from ic r None (chars s) 0).

(** *** Pattern syntax

    [compile] reads the fragment of the pattern language made of literals,
    escapes, [.], [^], [$], character sets, groups, alternation and the
    repetition operators; [None] stands for a pattern that [re.compile]
    rejects or that lies outside this fragment. *)

Local Open Scope char_scope.
Local Open Scope nat_scope.

Definition is_alnum_ascii (c : ascii) : bool :=
  let n := code c in
  between 48 57 n || between 65 90 n || between 97 122 n.

Definition category_escape (c : ascii) : option item :=
  if Ascii.eqb c "d" then Some (ICat false Digit)
  else if Ascii.eqb c "D" then Some (ICat true Digit)
  else if Ascii.eqb c "s" then Some (ICat false Space)
  else if Ascii.eqb c "S" then Some (ICat true Space)
  else if Ascii.eqb c "w" then Some (ICat false Word)
  else if Ascii.eqb c "W" then Some (ICat true Word)
  else None.

(** Escapes that denote one character, inside and outside a set *)
Definition char_escape (c : ascii) : option ascii :=
  if Ascii.eqb c "n" then Some (ascii_of_nat 10)
  else if Ascii.eqb c "t" then Some (ascii_of_nat 9)
  else if Ascii.eqb c "r" then Some (ascii_of_nat 13)
  else if Ascii.eqb c "f" then Some (ascii_of_nat 12)
  else if Ascii.eqb c "v" then Some (ascii_of_nat 11)
  else if Ascii.eqb c "a" then Some (ascii_of_nat 7)
  else if is_alnum_ascii c then None
  else Some c.

Definition escape (c : ascii) : option regex :=
  match category_escape c with
  | Some i => Some (Set_ false [i])
  | None =>
      if Ascii.eqb c "b" then Some (At WordB)
      else if Ascii.eqb c "B" then Some (At NotWordB)
      else if Ascii.eqb c "A" then Some (At Bol)
      else if Ascii.eqb c "Z" then Some (At Eos)
      else option_map Lit (char_escape c)
  end.

(** One member of a set: a character or a category *)
Definition set_member (s : list ascii) : option (item * list ascii) :=
  match s with
  | "\" :: e :: t =>
      match category_escape e with
      | Some i => Some (i, t)
      | None =>
          if Ascii.eqb e "b" then Some (IChar (ascii_of_nat 8), t)
          else option_map (fun c => (IChar c, t)) (char_escape e)
      end
  | "\" :: [] => None
  | c :: t => Some (IChar c, t)
  | [] => None
  end.

(** The members of a set up to the closing bracket; [first] allows a
    closing bracket as the first member. *)
Fixpoint set_items (fuel : nat) (first : bool) (s : list ascii)
  : option (list item * list ascii) :=
  match fuel with
  | 0 => None
  | S n =>
      match s with
      | [] => None
      | c :: t =>
          if Ascii.eqb c "]" && negb first then Some ([], t)
          else
            match set_member s with
            | None => None
            | Some (i1, t1) =>
                match t1 with
                | "-" :: "]" :: t2 => Some ([i1; IChar "-"], t2)
                | "-" :: t2 =>
                    match i1, set_member t2 with
                    | IChar lo, Some (IChar hi, t3) =>
                        if code lo <=? code hi then
                          match set_items n false t3 with
                          | Some (its, t4) => Some (IRange lo hi :: its, t4)
                          | None => None
                          end
                        else None
                    | _, _ => None
                    end
                | _ =>
                    match set_items n false t1 with
                    | Some (its, t4) => Some (i1 :: its, t4)
                    | None => None
                    end
                end
            end
      end
  end.

Definition parse_set (s : list ascii) : option (regex * list ascii) :=
  let (neg, s') := match s with
                   | "^" :: t => (true, t)
                   | _ => (false, s)
                   end in
  match set_items (S (List.length s')) true s' with
  | Some (its, t) => Some (Set_ neg its, t)
  | None => None
  end.

Fixpoint digits (acc : option nat) (s : list ascii)
  : option nat * list ascii :=
  match s with
  | c :: t =>
      if is_digit c then
        digits (Some (10 * match acc with Some a => a | None => 0 end
                      + (code c - 48))) t
      else (acc, s)
  | [] => (acc, s)
  end.

(** The text after an opening brace, when it is a repetition count *)
Definition braces (s : list ascii)
  : option (nat * option nat * list ascii) :=
  match s with
  | "}" :: _ => None
  | _ =>
      let (lo, s1) := digits None s in
      let lo' := match lo with Some a => a | None => 0 end in
      match s1 with
      | "}" :: t => Some (lo', lo, t)
      | "," :: s2 =>
          let (hi, s3) := digits None s2 in
          match s3 with
          | "}" :: t => Some (lo', hi, t)
          | _ => None
          end
      | _ => None
      end
  end.

Inductive suffix :=
| NoRepeat
| Repeats (lo : nat) (hi : option nat) (rest : list ascii)
| BadRepeat.

Definition repeat_suffix (s : list ascii) : suffix :=
  match s with
  | "*" :: t => Repeats 0 None t
  | "+" :: t => Repeats 1 None t
  | "?" :: t => Repeats 0 (Some 1) t
  | "{" :: t =>
      match braces t with
      | Some (lo, hi, t') =>
          if below lo hi || match hi with Some h => h =? lo | None => true end
          then Repeats lo hi t' else BadRepeat
      | None => NoRepeat
      end
  | _ => NoRepeat
  end.

(** An atom followed by its repetition operator, if any *)
Definition repeated (a : regex) (s : list ascii)
  : option (regex * list ascii) :=
  match repeat_suffix s with
  | NoRepeat => Some (a, s)
  | BadRepeat => None
  | Repeats lo hi t =>
      match a with
      | At _ => None
      | _ =>
          match t with
          | "?" :: t' => Some (Repeat lo hi false a, t')
          | _ => Some (Repeat lo hi true a, t)
          end
      end
  end.

Definition cat (a r : regex) : regex :=
  match r with Empty => a | _ => Cat a r end.

Fixpoint parse_alt (fuel : nat) (s : list ascii) {struct fuel}
  : option (regex * list ascii) :=
  match fuel with
  | 0 => None
  | S n =>
      match parse_seq n s with
      | Some (r1, "|" :: t) =>
          match parse_alt n t with
          | Some (r2, t') => Some (Or r1 r2, t')
          | None => None
          end
      | other => other
      end
  end
with parse_seq (fuel : nat) (s : list ascii) {struct fuel}
  : option (regex * list ascii) :=
  match fuel with
  | 0 => None
  | S n =>
      match s with
      | [] => Some (Empty, s)
      | "|" :: _ => Some (Empty, s)
      | ")" :: _ => Some (Empty, s)
      | c :: t =>
          match parse_atom n c t with
          | None => None
          | Some (a, t1) =>
              match repeated a t1 with
              | None => None
              | Some (q, t2) =>
                  match parse_seq n t2 with
                  | Some (r, t3) => Some (cat q r, t3)
                  | None => None
                  end
              end
          end
      end
  end
with parse_atom (fuel : nat) (c : ascii) (t : list ascii) {struct fuel}
  : option (regex * list ascii) :=
  match fuel with
  | 0 => None
  | S n =>
      let group (body : list ascii) :=
        match parse_alt n body with
        | Some (r, ")" :: t') => Some (r, t')
        | _ => None
        end in
      if Ascii.eqb c "(" then
        match t with
        | "?" :: ":" :: body => group body
        | "?" :: _ => None
        | _ => group t
        end
      else if Ascii.eqb c "[" then parse_set t
      else if Ascii.eqb c "\" then
        match t with
        | e :: t' => option_map (fun r => (r, t')) (escape e)
        | [] => None
        end
      else if Ascii.eqb c "." then Some (Dot, t)
      else if Ascii.eqb c "^" then Some (At Bol, t)
      else if Ascii.eqb c "$" then Some (At Eol, t)
      else if Ascii.eqb c "*" || Ascii.eqb c "+" || Ascii.eqb c "?"
      then None
      else if Ascii.eqb c "{" then
        match braces t with
        | Some _ => None
        | None => Some (Lit c, t)
        end
      else Some (Lit c, t)
  end.

(** [re.compile(pattern)] *)
Definition compile (pattern : string) : option regex :=
  let s := chars pattern in
  match parse_alt (4 * List.length s + 4) s with
  | Some (r, []) => Some r
  | _ => None
  end.

End Re.

(** ** Exceptions, results and the input/output trace *)

Inductive exn :=
| re_error            (* an allowlist pattern that does not compile *)
| OSError
| UnicodeDecodeError
| ValueError
| YAMLError
| AttributeError
| TypeError.

Inductive result (A : Type) :=
| Ok (a : A)
| Raise (e : exn).

Arguments Ok {A} a.
Arguments Raise {A} e.

Definition rbind {A B : Type} (r : result A) (f : A -> result B)
  : result B :=
  match r with
  | Ok a => f a
  | Raise e => Raise e
  end.

Notation "x <- r ;; k" := (rbind r (fun x => k))
  (at level 61, r at next level, right associativity).

(** A path is the list of its components ([PurePath.parts]). *)
Definition Path := list string.

(** [str(path)] *)
Definition path_str (p : Path) : string :=
  match p with
  | [] => "."
  | "/" :: rest => ("/" ++ Text.join_slash rest)%string
  | _ => Text.join_slash p
  end.

(** [path.name] *)
Definition path_name (p : Path) : string := last p "".

(** A finding: the dictionary appended to [issues] in [scan_file] *)
Record finding := Finding {
  f_file : string;
  f_line : nat;
  f_type : string;
  f_match : string;
  f_severity : string;
  f_context : string
}.

Record summary := Summary {
  total_findings : nat;
  by_severity : list (string * nat)
}.

Record report := Report {
  generated_at : string;
  repository_root : string;
  issues : list finding;
  report_summary : summary
}.

Inductive message :=
| RuntimeErrorMessage (e : exn)   (* PII scanner runtime error: ... *)
| FindingsMessage (n : nat)       (* PII findings detected ...: n *)
| CleanMessage.                   (* PII scan completed with no ... *)

Inductive event :=
| Visit (rel : Path)              (* a path yielded by [rglob] *)
| Read (rel : Path)               (* [read_text] on a file *)
| WriteReport (target : Path) (r : report)
| Print (m : message).

(** A computation with effects: the events it performed, in order, and
    its result. *)
Definition io (A : Type) : Type := list event * result A.

Definition ret {A : Type} (a : A) : io A := ([], Ok a).

Definition tell (e : event) : io unit := ([e], Ok tt).

Definition lift {A : Type} (r : result A) : io A := ([], r).

Definition bind {A B : Type} (m : io A) (f : A -> io B) : io B :=
  match m with
  | (t, Ok a) => let (t', r) := f a in (t ++ t', r)
  | (t, Raise e) => (t, Raise e)
  end.

Notation "x <~ m ;; k" := (bind m (fun x => k))
  (at level 61, m at next level, right associativity).

Definition trace {A : Type} (m : io A) : list event := fst m.
Definition outcome {A : Type} (m : io A) : result A := snd m.

(** ** Constants of the scanner *)

Definition DEFAULT_IGNORED_DIRECTORIES : list string :=
  [".git"; "node_modules"; "__pycache__"; ".venv"; ".next"; "dist";
   "build"; "coverage"; "reports"].

Definition DEFAULT_IGNORED_FILES : list string :=
  ["package-lock.json"; "yarn.lock"; "pnpm-lock.yaml"].

(** A compiled pattern: the expression and its IGNORECASE flag *)
Record pattern := Pattern {
  ignorecase : bool;
  expression : Re.regex
}.

Definition finditer (p : pattern) (line : string) : list string :=
  Re.finditer (ignorecase p) (expression p) line.

Module Patterns.
Import Re.
Local Open Scope char_scope.

Definition digit : regex := Set_ false [ICat false Digit].
Definition separator : regex :=
  Repeat 0 (Some 1) true (Set_ false [IChar "-"; IChar "."; ICat false Space]).
Definition times (n : nat) (r : regex) : regex := Repeat n (Some n) true r.
Definition opt (r : regex) : regex := Repeat 0 (Some 1) true r.

Definition email : regex :=
  Cat (Repeat 1 None true
         (Set_ false [IRange "A" "Z"; IRange "0" "9"; IChar "."; IChar "_";
                      IChar "%"; IChar "+"; IChar "-"]))
   (Cat (Lit "@")
     (Cat (Repeat 1 None true
             (Set_ false [IRange "A" "Z"; IRange "0" "9"; IChar ".";
                          IChar "-"]))
       (Cat (Lit ".")
          (Repeat 2 None true (Set_ false [IRange "A" "Z"]))))).

Definition phone : regex :=
  Cat (opt (Cat (opt (Lit "+")) (Cat (Lit "1") separator)))
   (Cat (Or (Cat (opt (Lit "(")) (Cat (times 3 digit) (opt (Lit ")"))))
            (times 3 digit))
     (Cat separator
       (Cat (times 3 digit)
         (Cat separator (times 4 digit))))).

Definition ssn : regex :=
  Cat (At WordB)
   (Cat (times 3 digit)
     (Cat (Lit "-")
       (Cat (times 2 digit)
         (Cat (Lit "-")
           (Cat (times 4 digit) (At WordB)))))).

End Patterns.

Definition PII_PATTERNS : list (string * pattern) :=
  [("email", Pattern true Patterns.email);
   ("phone", Pattern false Patterns.phone);
   ("ssn", Pattern false Patterns.ssn)].

Definition SEVERITY_MAPPING : list (string * string) :=
  [("email", "medium"); ("phone", "high"); ("ssn", "high")].

(** [mapping.get(key, default)] *)
Fixpoint dict_get {V : Type} (d : list (string * V)) (key : string)
    (default : V) : V :=
  match d with
  | [] => default
  | (k, v) :: rest => if String.eqb k key then v else dict_get rest key default
  end.

(** ** The file system and the allowlist file *)

(** What [read_text] does on a file: it returns the text, or raises
    [OSError] or [UnicodeDecodeError]. *)
Inductive read_failure := os_error | unicode_decode_error.

Inductive content :=
| Text (t : string)
| Unreadable (e : read_failure).

#[local] Set Warnings "-register-all".
Inductive node :=
| File (name : string) (c : content)
| Dir (name : string) (children : list node).

(** The root as [rglob] finds it once it could examine it: it does not
    exist, it is not a directory, it is a directory whose listing is
    denied, or it is a directory with its content.  A root that cannot
    even be examined is the matter of [scan_from] below. *)
Inductive root_state :=
| RootMissing
| RootNotDirectory
| RootDenied
| RootDir (children : list node).

Inductive entry :=
| IsDir
| IsFile (c : content).

Definition node_name (n : node) : string :=
  match n with File name _ => name | Dir name _ => name end.

Definition node_entry (n : node) : entry :=
  match n with File _ c => IsFile c | Dir _ _ => IsDir end.

Definition listing (here : Path) (children : list node)
  : list (Path * entry) :=
  map (fun c => (here ++ [node_name c], node_entry c)) children.

(** The paths below a directory, relative to the root: its entries, then
    those of each subdirectory in turn. *)
Fixpoint rglob_node (prefix : Path) (n : node) : list (Path * entry) :=
  match n with
  | File _ _ => []
  | Dir name children =>
      listing (prefix ++ [name]) children
      ++ flat_map (rglob_node (prefix ++ [name])) children
  end.

(** [root.rglob("*")], relative to [root], on a root that could be
    examined.  [rglob] yields nothing when [is_dir] says no (a missing root
    or one that is not a directory), and it swallows the PermissionError
    of listing a directory ([RootDenied]). *)
Definition rglob (root : root_state) : list (Path * entry) :=
  match root with
  | RootDir children =>
      listing [] children ++ flat_map (rglob_node []) children
  | RootMissing | RootNotDirectory | RootDenied => []
  end.

(** The allowlist file: absent, or what [yaml.safe_load] returns or raises
    on it.  A document is empty ([None]) or a mapping from keys to lists
    of strings, a null value being [None]: the files the docstring of
    [load_allowlist] describes, written without aliases, so that no list
    is shared.  [load_allowlist_objects] below takes any document. *)
Definition document := option (list (string * option (list string))).

Inductive allow_file :=
| Absent
| Present (loaded : result document).

Definition or_empty {A : Type} (v : option (list A)) : list A :=
  match v with Some l => l | None => [] end.

Definition load_allowlist (path : allow_file)
  : result (list string * list string) :=
  match path with
  | Absent => Ok ([], [])
  | Present loaded =>
      data <- loaded ;;
      let data := or_empty data in
      let path_entries := or_empty (dict_get data "paths" (Some [])) in
      let pattern_entries := or_empty (dict_get data "regexes" (Some [])) in
      let pattern_entries :=
        pattern_entries ++ or_empty (dict_get data "patterns" (Some [])) in
      Ok (path_entries, pattern_entries)
  end.

Definition normalize_match (text : string) : string := Text.strip text.

(** [sum(1 for issue in issues if issue["severity"] == level)] *)
Definition count_severity (level : string) (issues : list finding) : nat :=
  List.length
    (filter (fun issue => String.eqb (f_severity issue) level) issues).

Definition summarize (issues : list finding) : summary :=
  {| total_findings := List.length issues;
     by_severity := [("high", count_severity "high" issues);
                     ("medium", count_severity "medium" issues);
                     ("low", count_severity "low" issues)] |}.

(** [write_report]: [sink] is what creating the parent directory and
    opening the report file does; [now] is [datetime.utcnow().isoformat()]. *)
Definition write_report (sink : result unit) (now : string)
    (report_path : Path) (issues : list finding) (root : Path) : io unit :=
  _ <~ lift sink ;;
  let summary := summarize issues in
  let report :=
    {| generated_at := (now ++ "Z")%string;
       repository_root := path_str root;
       issues := issues;
       report_summary := summary |} in
  tell (WriteReport report_path report).

(** What a run of the program meets: the parsed arguments and the state
    of the files they name. *)
Record world := World {
  arg_root : Path;
  arg_allowlist : allow_file;
  arg_output : Path;
  tree : root_state;
  sink : result unit;
  now : string
}.

Section Scanner.

(** [re.search(pattern, text) is not None], or the error raised when
    the pattern does not compile *)
Variable re_search : string -> string -> result bool.

(** [rel_path.match(entry)] *)
Variable path_match : Path -> string -> result bool.

Fixpoint matches_user_path (rel_path : Path) (rel_posix : string)
    (ignore_paths : list string) : result bool :=
  match ignore_paths with
  | [] => Ok false
  | entry :: rest =>
      m <- path_match rel_path entry ;;
      if m || Text.startswith rel_posix (Text.rstrip_slash entry)
      then Ok true
      else matches_user_path rel_path rel_posix rest
  end.

Definition should_ignore_path (rel_path : Path)
    (ignore_paths : list string) : result bool :=
  if existsb (fun d => Text.mem d rel_path) DEFAULT_IGNORED_DIRECTORIES
  then Ok true
  else if Text.mem (path_name rel_path) DEFAULT_IGNORED_FILES
  then Ok true
  else matches_user_path rel_path (Text.join_slash rel_path) ignore_paths.

(** [any(re.search(pattern, text) for pattern in allow_patterns)] *)
Fixpoint is_allowed_match (text : string) (allow_patterns : list string)
  : result bool :=
  match allow_patterns with
  | [] => Ok false
  | pattern :: rest =>
      found <- re_search pattern text ;;
      if found then Ok true else is_allowed_match text rest
  end.

(** The loops of [scan_file], innermost first; [issues] is the list
    being appended to. *)
Fixpoint scan_matches (file_path : Path) (allow_patterns : list string)
    (line_no : nat) (line pii_type : string) (found : list string)
    (issues : list finding) : result (list finding) :=
  match found with
  | [] => Ok issues
  | group0 :: rest =>
      let matched_text := normalize_match group0 in
      allowed <- is_allowed_match matched_text allow_patterns ;;
      allowed <-
        (if allowed then Ok true
         else is_allowed_match line allow_patterns) ;;
      if allowed then
        scan_matches file_path allow_patterns line_no line pii_type rest
          issues
      else
        let severity := dict_get SEVERITY_MAPPING pii_type "medium" in
        scan_matches file_path allow_patterns line_no line pii_type rest
          (issues ++ [{| f_file := path_str file_path;
                         f_line := line_no;
                         f_type := pii_type;
                         f_match := matched_text;
                         f_severity := severity;
                         f_context := Text.strip line |}])
  end.

Fixpoint scan_line (file_path : Path) (allow_patterns : list string)
    (line_no : nat) (line : string) (patterns : list (string * pattern))
    (issues : list finding) : result (list finding) :=
  match patterns with
  | [] => Ok issues
  | (pii_type, pattern) :: rest =>
      issues <- scan_matches file_path allow_patterns line_no line
                  pii_type (finditer pattern line) issues ;;
      scan_line file_path allow_patterns line_no line rest issues
  end.

Fixpoint scan_lines (file_path : Path) (allow_patterns : list string)
    (line_no : nat) (lines : list string) (issues : list finding)
  : result (list finding) :=
  match lines with
  | [] => Ok issues
  | line :: rest =>
      issues <- scan_line file_path allow_patterns line_no line
                  PII_PATTERNS issues ;;
      scan_lines file_path allow_patterns (S line_no) rest issues
  end.

(** [scan_file]: [rel] names the file in the trace, [read_text] is
    what reading it does. *)
Definition scan_file (file_path rel : Path) (read_text : content)
    (allow_patterns : list string) : io (list finding) :=
  _ <~ tell (Read rel) ;;
  match read_text with
  | Unreadable os_error | Unreadable unicode_decode_error => ret []
  | Text content =>
      lift (scan_lines file_path allow_patterns 1
              (Text.splitlines content) [])
  end.

Fixpoint scan_entries (root : Path) (allow_paths allow_patterns : list string)
    (entries : list (Path * entry)) (issues : list finding)
  : io (list finding) :=
  match entries with
  | [] => ret issues
  | (rel, kind) :: rest =>
      _ <~ tell (Visit rel) ;;
      match kind with
      | IsDir =>
          ignored <~ lift (should_ignore_path rel allow_paths) ;;
          if ignored then
            match rel with
            | _ :: _ => scan_entries root allow_paths allow_patterns rest issues
            | [] => scan_entries root allow_paths allow_patterns rest issues
            end
          else scan_entries root allow_paths allow_patterns rest issues
      | IsFile read_text =>
          ignored <~ lift (should_ignore_path rel allow_paths) ;;
          if ignored then
            scan_entries root allow_paths allow_patterns rest issues
          else
            found <~ scan_file (root ++ rel) rel read_text allow_patterns ;;
            scan_entries root allow_paths allow_patterns rest
              (issues ++ found)
      end
  end.

Definition scan_repository (root : Path) (tree : root_state)
    (allow_paths allow_patterns : list string) : io (list finding) :=
  scan_entries root allow_paths allow_patterns (rglob tree) [].

(** [main]: the result is the exit status of the process. *)
Definition main (w : world) : io Z :=
  let attempt :=
    lists <~ lift (load_allowlist (arg_allowlist w)) ;;
    let (allow_paths, allow_patterns) := lists : list string * list string in
    issues <~ scan_repository (arg_root w) (tree w) allow_paths
                allow_patterns ;;
    _ <~ write_report (sink w) (now w) (arg_output w) issues
           (arg_root w) ;;
    ret issues in
  match attempt with
  | (t, Raise exc) => (t ++ [Print (RuntimeErrorMessage exc)], Ok 2%Z)
  | (t, Ok issues) =>
      match issues with
      | _ :: _ =>
          (t ++ [Print (FindingsMessage (List.length issues))], Ok 1%Z)
      | [] => (t ++ [Print CleanMessage], Ok 0%Z)
      end
  end.

End Scanner.

(** The body of [main] around the scan it runs *)
Definition main_with (scan : list string -> list string -> io (list finding))
    (w : world) : io Z :=
  let attempt :=
    lists <~ lift (load_allowlist (arg_allowlist w)) ;;
    let (allow_paths, allow_patterns) := lists : list string * list string in
    issues <~ scan allow_paths allow_patterns ;;
    _ <~ write_report (sink w) (now w) (arg_output w) issues
           (arg_root w) ;;
    ret issues in
  match attempt with
  | (t, Raise exc) => (t ++ [Print (RuntimeErrorMessage exc)], Ok 2%Z)
  | (t, Ok issues) =>
      match issues with
      | _ :: _ =>
          (t ++ [Print (FindingsMessage (List.length issues))], Ok 1%Z)
      | [] => (t ++ [Print CleanMessage], Ok 0%Z)
      end
  end.

(** [scan_repository] from the first step of its loop.  Before it yields
    anything [rglob] tests the root with [is_dir], and [root_test] is what
    that test does: it returns when the root could be examined, whatever
    the answer (a missing root gives a plain "no"), and it raises when it
    could not, with PermissionError, an [OSError], when a directory above
    the root is not searchable.  The error leaves the function before any
    path is visited. *)
Definition scan_from (re_search : string -> string -> result bool)
    (path_match : Path -> string -> result bool) (root : Path)
    (root_test : result unit) (t : root_state)
    (allow_paths allow_patterns : list string) : io (list finding) :=
  _ <~ lift root_test ;;
  scan_repository re_search path_match root t allow_paths allow_patterns.

(** [main] with the test of the root made explicit *)
Definition main_from (re_search : string -> string -> result bool)
    (path_match : Path -> string -> result bool) (root_test : result unit)
    (w : world) : io Z :=
  main_with (scan_from re_search path_match (arg_root w) root_test (tree w))
    w.

(** ** The library functions on the fragment modelled here *)

(** [re.search] through [Re.compile] and [Re.search] *)
Definition py_re_search (pattern text : string) : result bool :=
  match Re.compile pattern with
  | Some r => Ok (Re.search false r text)
  | None => Raise re_error
  end.

Module Glob.
Local Open Scope char_scope.

(** [fnmatch.fnmatchcase] for patterns made of literal characters, [*]
    and [?] *)
Fixpoint wild (p s : list ascii) {struct p} : bool :=
  match p with
  | [] => match s with [] => true | _ => false end
  | "*" :: p' =>
      (fix try (s : list ascii) : bool :=
         wild p' s || match s with [] => false | _ :: s' => try s' end) s
  | "?" :: p' => match s with _ :: s' => wild p' s' | [] => false end
  | c :: p' =>
      match s with
      | x :: s' => Ascii.eqb c x && wild p' s'
      | [] => false
      end
  end.

Fixpoint split_slash (cur : list ascii) (s : list ascii)
  : list (list ascii) :=
  match s with
  | [] => [rev cur]
  | c :: t =>
      if Ascii.eqb c "/" then rev cur :: split_slash [] t
      else split_slash (c :: cur) t
  end.

(** The components of a pattern: empty ones and [.] are dropped. *)
Definition pattern_parts (pattern : string) : list (list ascii) :=
  filter (fun c => match c with [] | ["."] => false | _ => true end)
    (split_slash [] (Text.chars pattern)).

Fixpoint zip_all (pats : list (list ascii)) (parts : list string) : bool :=
  match pats, parts with
  | [], _ => true
  | _ :: _, [] => false
  | p :: pats', part :: parts' =>
      wild p (Text.chars part) && zip_all pats' parts'
  end.

End Glob.

(** [PurePath.match] on a relative path: the pattern is matched from the
    right, component by component; an empty pattern is an error and an
    absolute pattern matches no relative path. *)
Definition py_path_match (rel_path : Path) (pattern : string) : result bool :=
  match Glob.pattern_parts pattern with
  | [] => Raise ValueError
  | pats =>
      if Text.startswith pattern "/" then Ok false
      else Ok (Glob.zip_all (rev pats) (rev rel_path))
  end.

Definition contact_line : string :=
  "Contact: alice@example.com or 555-123-4567".

(** ** Candidates

    The matches a scan considers, before the allowlist is consulted. *)

Record candidate := Candidate {
  c_file : Path;
  c_line_no : nat;
  c_line : string;
  c_type : string;
  c_match : string
}.

Definition finding_of (c : candidate) : finding :=
  {| f_file := path_str (c_file c);
     f_line := c_line_no c;
     f_type := c_type c;
     f_match := c_match c;
     f_severity := dict_get SEVERITY_MAPPING (c_type c) "medium";
     f_context := Text.strip (c_line c) |}.

Definition match_candidates (file_path : Path) (line_no : nat)
    (line pii_type : string) (found : list string) : list candidate :=
  map (fun group0 =>
         Candidate file_path line_no line pii_type (normalize_match group0))
    found.

Definition line_candidates (file_path : Path) (line_no : nat)
    (line : string) (patterns : list (string * pattern)) : list candidate :=
  flat_map (fun kp => match_candidates file_path line_no line (fst kp)
                        (finditer (snd kp) line))
    patterns.

Fixpoint lines_candidates (file_path : Path) (line_no : nat)
    (lines : list string) : list candidate :=
  match lines with
  | [] => []
  | line :: rest =>
      line_candidates file_path line_no line PII_PATTERNS
      ++ lines_candidates file_path (S line_no) rest
  end.

Definition file_candidates (file_path : Path) (read_text : content)
  : list candidate :=
  match read_text with
  | Text t => lines_candidates file_path 1 (Text.splitlines t)
  | Unreadable _ => []
  end.

Definition holds (r : result bool) : bool :=
  match r with Ok true => true | _ => false end.

Section Suppression.
Variable re_search : string -> string -> result bool.
Variable path_match : Path -> string -> result bool.

Definition found_in (text rule : string) : bool :=
  holds (re_search rule text).

(** A rule hits a candidate when it is found in the trimmed match or in
    the whole line. *)
Definition hit (rule : string) (c : candidate) : bool :=
  holds (re_search rule (c_match c)) || holds (re_search rule (c_line c)).

Definition suppressed (rules : list string) (c : candidate) : bool :=
  existsb (fun rule => hit rule c) rules.

Definition survivors (rules : list string) (cs : list candidate)
  : list candidate :=
  filter (fun c => negb (suppressed rules c)) cs.

(** The allowlist decision on one candidate, as [scan_file] takes it *)
Definition decide (rules : list string) (c : candidate) : result bool :=
  allowed <- is_allowed_match re_search (c_match c) rules ;;
  if allowed then Ok true
  else is_allowed_match re_search (c_line c) rules.

(** The candidates in order, each kept unless the allowlist takes it *)
Fixpoint screen (rules : list string) (cs : list candidate)
    (issues : list finding) : result (list finding) :=
  match cs with
  | [] => Ok issues
  | c :: rest =>
      allowed <- decide rules c ;;
      if allowed then screen rules rest issues
      else screen rules rest (issues ++ [finding_of c])
  end.

(** A rule that compiles: searching with it never raises. *)
Definition compiles (rule : string) : Prop :=
  forall text, exists b, re_search rule text = Ok b.

(** The files a scan reads: those that are not ignored. *)
Definition scanned (allow_paths : list string) (e : Path * entry) : bool :=
  match snd e with
  | IsDir => false
  | IsFile _ =>
      match should_ignore_path path_match (fst e) allow_paths with
      | Ok false => true
      | _ => false
      end
  end.

Definition entry_candidates (root : Path) (allow_paths : list string)
    (e : Path * entry) : list candidate :=
  match snd e with
  | IsFile read_text =>
      if scanned allow_paths e
      then file_candidates (root ++ fst e) read_text
      else []
  | IsDir => []
  end.

Definition repo_candidates (root : Path) (allow_paths : list string)
    (entries : list (Path * entry)) : list candidate :=
  flat_map (entry_candidates root allow_paths) entries.

(** An entry the scan gets past: the path filter answers on it and the
    allowlist answers on each of its candidates. *)
Definition entry_ok (root : Path) (allow_paths rules : list string)
    (e : Path * entry) : Prop :=
  (exists b, should_ignore_path path_match (fst e) allow_paths = Ok b)
  /\ forall c, In c (entry_candidates root allow_paths e) ->
               exists d, decide rules c = Ok d.

End Suppression.

(** ** Vocabulary of the statements *)

(** The severity the catalogue gives to a pattern kind *)
Definition severity_of (kind : string) : string :=
  dict_get SEVERITY_MAPPING kind "medium".

Definition SEVERITIES : list string := ["high"; "medium"; "low"].

(** A relative path with a component in the built-in directory set *)
Definition has_excluded_part (rel : Path) : bool :=
  existsb (fun d => Text.mem d rel) DEFAULT_IGNORED_DIRECTORIES.

(** A path rule on which [match] never raises *)
Definition answers (path_match : Path -> string -> result bool)
    (entry : string) : Prop :=
  forall rel, exists b, path_match rel entry = Ok b.

(** A root that could be examined and cannot be listed *)
Definition unlistable (root : root_state) : Prop :=
  root = RootMissing \/ root = RootNotDirectory \/ root = RootDenied.

(** The report written when the scan found [issues] *)
Definition report_of (w : world) (issues : list finding) : report :=
  {| generated_at := (now w ++ "Z")%string;
     repository_root := path_str (arg_root w);
     issues := issues;
     report_summary := summarize issues |}.

(** The sum of the counts of a [by_severity] mapping *)
Definition sum_counts (counts : list (string * nat)) : nat :=
  fold_right (fun kv acc => snd kv + acc) 0 counts.

(** What [main] prints and returns after a scan that found [issues] *)
Definition closing_message (issues : list finding) : message :=
  match issues with
  | [] => CleanMessage
  | _ :: _ => FindingsMessage (List.length issues)
  end.

Definition exit_status (issues : list finding) : Z :=
  match issues with
  | [] => 0%Z
  | _ :: _ => 1%Z
  end.

Definition KINDS : list string := ["email"; "phone"; "ssn"].

(** ** Sample trees and runs *)

Definition sample_root : Path := ["repo"].

Definition contacts_tree : root_state :=
  RootDir [File "contacts.txt" (Text contact_line)].

Definition sample_tree : root_state :=
  RootDir
    [File "README.md" (Text contact_line);
     Dir "node_modules"
       [File "a.txt" (Text "mail bob@example.org");
        Dir "pkg" [File "index.js" (Text "call 555-123-4567")]];
     Dir "src"
       [File "app.py" (Text "ssn = 123-45-6789");
        File "blob.bin" (Unreadable os_error)];
     File "yarn.lock" (Text "carol@example.net")].

Definition email_finding : finding :=
  {| f_file := "repo/contacts.txt";
     f_line := 1;
     f_type := "email";
     f_match := "alice@example.com";
     f_severity := "medium";
     f_context := contact_line |}.

Definition phone_finding : finding :=
  {| f_file := "repo/contacts.txt";
     f_line := 1;
     f_type := "phone";
     f_match := "555-123-4567";
     f_severity := "high";
     f_context := contact_line |}.

Definition newline : string := String (ascii_of_nat 10) "".

Definition two_lines : string :=
  ("mail alice@example.com" ++ newline ++ "call 555-123-4567")%string.

Definition two_line_tree : root_state :=
  RootDir [File "contacts.txt" (Text two_lines)].

Definition mail_candidate : candidate :=
  {| c_file := ["repo"; "contacts.txt"];
     c_line_no := 1;
     c_line := "mail alice@example.com";
     c_type := "email";
     c_match := "alice@example.com" |}.

Definition call_candidate : candidate :=
  {| c_file := ["repo"; "contacts.txt"];
     c_line_no := 2;
     c_line := "call 555-123-4567";
     c_type := "phone";
     c_match := "555-123-4567" |}.

(** A root whose listing is denied, the report going elsewhere *)
Definition closed_root_world : world :=
  {| arg_root := ["srv"; "private"];
     arg_allowlist := Absent;
     arg_output := ["out"; "pii_report.json"];
     tree := RootDenied;
     sink := Ok tt;
     now := "2024-01-01T00:00:00" |}.

Definition sample_world (allowlist : allow_file) (t : root_state) : world :=
  {| arg_root := sample_root;
     arg_allowlist := allowlist;
     arg_output := ["repo"; "reports"; "pii_report.json"];
     tree := t;
     sink := Ok tt;
     now := "2024-01-01T00:00:00" |}.

(** ** The allowlist as the objects [yaml.safe_load] builds

    The values of the types null, bool, int, str, sequence and mapping.
    A list is an object in a store, named by its place: an alias in the
    YAML text gives the same place twice, and [list.extend] changes the
    list at its place for every holder. *)

Inductive value :=
| VNone
| VBool (b : bool)
| VInt (z : Z)
| VStr (s : string)
| VList (place : nat)
| VDict (items : list (value * value)).

Definition store := list (nat * list value).

Definition items_at (h : store) (place : nat) : list value :=
  match find (fun kv => fst kv =? place) h with
  | Some kv => snd kv
  | None => []
  end.

(** The items of a value that is a list *)
Definition contents (h : store) (v : value) : list value :=
  match v with
  | VList place => items_at h place
  | _ => []
  end.

(** [bool(v)] *)
Definition truthy (h : store) (v : value) : bool :=
  match v with
  | VNone => false
  | VBool b => b
  | VInt z => negb (z =? 0)%Z
  | VStr s => negb (String.eqb s "")
  | VList place => match items_at h place with [] => false | _ => true end
  | VDict items => match items with [] => false | _ => true end
  end.

(** The value under a string key of a dict *)
Fixpoint py_get (items : list (value * value)) (key : string)
  : option value :=
  match items with
  | [] => None
  | (VStr k, v) :: rest => if String.eqb k key then Some v else py_get rest key
  | _ :: rest => py_get rest key
  end.

(** The value [data.get(key, []) or []] keeps, [None] when it makes a new
    empty list *)
Definition chosen (h : store) (items : list (value * value)) (key : string)
  : option value :=
  match py_get items key with
  | Some v => if truthy h v then Some v else None
  | None => None
  end.

(** A new empty list, at a place not in use *)
Definition new_list (h : store) : value * store :=
  let place := S (list_max (map fst h)) in
  (VList place, (place, []) :: h).

(** [data.get(key, []) or []] *)
Definition entries_under (h : store) (items : list (value * value))
    (key : string) : value * store :=
  match chosen h items key with
  | Some v => (v, h)
  | None => new_list h
  end.

(** What [list.extend] draws from its argument *)
Definition iterate (h : store) (v : value) : result (list value) :=
  match v with
  | VList place => Ok (items_at h place)
  | VStr s => Ok (map (fun c => VStr (String c "")) (Text.chars s))
  | VDict items => Ok (map fst items)
  | VNone | VBool _ | VInt _ => Raise TypeError
  end.

Inductive object_file :=
| NoFile
| Loaded (document : result (value * store)).

(** [load_allowlist] on these objects: the two values it returns and the
    store they live in. *)
Definition load_allowlist_objects (path : object_file)
  : result (value * value * store) :=
  match path with
  | NoFile =>
      let (path_entries, h1) := new_list [] in
      let (pattern_entries, h2) := new_list h1 in
      Ok (path_entries, pattern_entries, h2)
  | Loaded document =>
      loaded <- document ;;
      let (data, h) := loaded : value * store in
      let data := if truthy h data then data else VDict [] in
      match data with
      | VDict items =>
          let (path_entries, h1) := entries_under h items "paths" in
          let (pattern_entries, h2) := entries_under h1 items "regexes" in
          match pattern_entries with
          | VList place =>
              let (more, h3) := entries_under h2 items "patterns" in
              extension <- iterate h3 more ;;
              Ok (path_entries, pattern_entries,
                  (place, items_at h3 place ++ extension) :: h3)
          | _ => Raise AttributeError
          end
      | _ => Raise AttributeError
      end
  end.

(** The extra rules [extend] receives: the items drawn from the value kept
    under patterns, none when there is no such value *)
Definition extension (h : store) (items : list (value * value))
  : result (list value) :=
  match chosen h items "patterns" with
  | Some v => iterate h v
  | None => Ok []
  end.

Definition string_list (v : option (list string)) (place : nat)
  : value * store :=
  match v with
  | Some l => (VList place, [(place, map VStr l)])
  | None => (VNone, [])
  end.

(** The objects of a document with the three keys and no shared list *)
Definition objects_of (paths regexes patterns : option (list string))
  : value * store :=
  (VDict [(VStr "paths", fst (string_list paths 0));
          (VStr "regexes", fst (string_list regexes 1));
          (VStr "patterns", fst (string_list patterns 2))],
   snd (string_list paths 0) ++ snd (string_list regexes 1)
   ++ snd (string_list patterns 2)).

(** A document whose paths and regexes are one list, through an alias *)
Definition aliased_document : value * store :=
  (VDict [(VStr "paths", VList 0); (VStr "regexes", VList 0);
          (VStr "patterns", VList 1)],
   [(0, [VStr "docs"]); (1, [VStr "example\.com"])]).

Definition plain_document : value * store :=
  (VDict [(VStr "paths", VList 0); (VStr "regexes", VList 1);
          (VStr "patterns", VList 2)],
   [(0, [VStr "docs"]); (1, [VStr "a"]); (2, [VStr "b"])]).

(** ** Vocabulary of the further properties *)

(** A path the filter skips before it looks at the path rules *)
Definition default_excluded (rel : Path) : bool :=
  has_excluded_part rel || Text.mem (path_name rel) DEFAULT_IGNORED_FILES.

(** The events of a traversal that returns: each entry is visited, and
    read when it is a file that is not ignored. *)
Definition expected_trace (path_match : Path -> string -> result bool)
    (allow_paths : list string) (entries : list (Path * entry))
  : list event :=
  flat_map (fun e => Visit (fst e)
                     :: if scanned path_match allow_paths e
                        then [Read (fst e)] else [])
    entries.

(** The number of files and directories of a tree *)
Fixpoint node_count (n : node) : nat :=
  match n with
  | File _ _ => 1
  | Dir _ children => S (list_sum (map node_count children))
  end.

Definition tree_count (t : root_state) : nat :=
  match t with
  | RootDir children => list_sum (map node_count children)
  | RootMissing | RootNotDirectory | RootDenied => 0
  end.

Definition plain_tree : root_state :=
  RootDir [File "notes.txt" (Text "nothing to see here");
           Dir "docs" [File "guide.md" (Text "call us")]].

Definition lock_tree : root_state :=
  RootDir [Dir "web" [File "yarn.lock" (Text "dave@example.org");
                      File "index.html" (Text "erin@example.org")]].

(** * Properties *)

Unset Implicit Arguments.

(** ** Results and traces *)

Lemma outcome_bind {A B : Type} (m : io A) (f : A -> io B) :
  outcome (bind m f) =
  match outcome m with
  | Ok a => outcome (f a)
  | Raise e => Raise e
  end.
Proof.
  destruct m as [t [a | e]]; simpl; [destruct (f a) |]; reflexivity.
Qed.

Lemma trace_bind {A B : Type} (m : io A) (f : A -> io B) :
  trace (bind m f) =
  trace m ++ match outcome m with
             | Ok a => trace (f a)
             | Raise _ => []
             end.
Proof.
  destruct m as [t [a | e]]; simpl.
  - destruct (f a); reflexivity.
  - now rewrite app_nil_r.
Qed.

Lemma outcome_lift {A : Type} (r : result A) : outcome (lift r) = r.
Proof. reflexivity. Qed.

(** ** The pattern catalogue is the one written in the source *)

Lemma email_source :
  Re.compile "[A-Z0-9._%+-]+@[A-Z0-9.-]+\.[A-Z]{2,}" = Some Patterns.email.
Proof. reflexivity. Qed.

Lemma phone_source :
  Re.compile "(?:\+?1[-.\s]?)?(?:\(?\d{3}\)?|\d{3})[-.\s]?\d{3}[-.\s]?\d{4}"
  = Some Patterns.phone.
Proof. reflexivity. Qed.

Lemma ssn_source :
  Re.compile "\b\d{3}-\d{2}-\d{4}\b" = Some Patterns.ssn.
Proof. reflexivity. Qed.

(** The matcher on a few patterns: greedy and lazy repetition, ordered
    alternatives, empty matches, word boundaries and case folding. *)

Example finditer_empty_matches :
  option_map (fun r => Re.finditer false r "baac") (Re.compile "a*")
  = Some [""; "aa"; ""; ""].
Proof. reflexivity. Qed.

Example finditer_empty_alternative :
  option_map (fun r => Re.finditer false r "a") (Re.compile "(|a)*")
  = Some [""; "a"; ""].
Proof. reflexivity. Qed.

Example finditer_backtracks :
  option_map (fun r => Re.finditer false r "abc")
    (Re.compile "(?:ab|a)(?:bc|c)")
  = Some ["abc"].
Proof. reflexivity. Qed.

Example finditer_lazy :
  option_map (fun r => Re.finditer false r "aab") (Re.compile "a*?b")
  = Some ["aab"].
Proof. reflexivity. Qed.

Example compile_rejects :
  map Re.compile ["a{2,1}"; "*a"; "(a"; "a)"; "[a"; "\q"; "a**"; "[z-a]"]
  = [None; None; None; None; None; None; None; None].
Proof. reflexivity. Qed.

Example ssn_needs_word_boundaries :
  finditer (Pattern false Patterns.ssn)
    "x123-45-6789 123-45-67890 123-45-6789."
  = ["123-45-6789"].
Proof. vm_compute. reflexivity. Qed.

Example email_ignores_case :
  finditer (Pattern true Patterns.email) "To: Bob.Smith@Mail.Example.ORG, x@y"
  = ["Bob.Smith@Mail.Example.ORG"].
Proof. vm_compute. reflexivity. Qed.

Example phone_accepts_separators :
  finditer (Pattern false Patterns.phone)
    "(555) 123 4567, +1 555.123.4567, 123-45-6789"
  = ["(555) 123 4567"; "+1 555.123.4567"].
Proof. vm_compute. reflexivity. Qed.

Example splitlines_line_breaks :
  Text.splitlines ("a" ++ newline ++ newline ++ " b " ++ newline)%string
  = ["a"; ""; " b "].
Proof. reflexivity. Qed.

(** ** The allowlist decision *)

Section Decisions.
Variable re_search : string -> string -> result bool.

Lemma is_allowed_match_sound text rules b :
  is_allowed_match re_search text rules = Ok b ->
  b = existsb (found_in re_search text) rules.
Proof.
  induction rules as [| rule rest IH]; simpl.
  - now intros [= <-].
  - unfold found_in at 1, holds.
    destruct (re_search rule text) as [[|] | e]; simpl.
    + now intros [= <-].
    + exact IH.
    + discriminate.
Qed.

Lemma is_allowed_match_insert text l1 rule l2 a b :
  is_allowed_match re_search text (l1 ++ l2) = Ok a ->
  re_search rule text = Ok b ->
  is_allowed_match re_search text (l1 ++ rule :: l2) = Ok (a || b).
Proof.
  intros Hold Hrule.
  induction l1 as [| r rest IH]; simpl in *.
  - rewrite Hrule; simpl. destruct b.
    + now rewrite orb_true_r.
    + now rewrite orb_false_r.
  - destruct (re_search r text) as [[|] | e]; simpl in *.
    + now injection Hold as <-.
    + now apply IH.
    + discriminate.
Qed.

Lemma is_allowed_match_total text rules :
  Forall (compiles re_search) rules ->
  is_allowed_match re_search text rules
  = Ok (existsb (found_in re_search text) rules).
Proof.
  induction 1 as [| rule rest Hrule _ IH]; simpl; [reflexivity |].
  unfold found_in at 1, holds.
  destruct (Hrule text) as [b ->]; simpl.
  destruct b; [reflexivity | exact IH].
Qed.

Lemma suppressed_split rules c :
  suppressed re_search rules c =
  existsb (found_in re_search (c_match c)) rules
  || existsb (found_in re_search (c_line c)) rules.
Proof.
  unfold suppressed, hit, found_in.
  induction rules as [| rule rest IH]; simpl; [reflexivity |].
  rewrite IH.
  destruct (holds (re_search rule (c_match c))),
    (holds (re_search rule (c_line c))),
    (existsb (fun r => holds (re_search r (c_match c))) rest); reflexivity.
Qed.

Lemma decide_sound rules c d :
  decide re_search rules c = Ok d -> d = suppressed re_search rules c.
Proof.
  unfold decide. rewrite suppressed_split.
  destruct (is_allowed_match re_search (c_match c) rules) as [a | e] eqn:Hm;
    simpl; [| discriminate].
  apply is_allowed_match_sound in Hm.
  fold (found_in re_search (c_match c)) in Hm. rewrite <- Hm.
  destruct a; simpl.
  - now intros [= <-].
  - intros Hl. now apply is_allowed_match_sound in Hl.
Qed.

Lemma decide_total rules c :
  Forall (compiles re_search) rules ->
  decide re_search rules c = Ok (suppressed re_search rules c).
Proof.
  intros Hrules. unfold decide. rewrite suppressed_split.
  rewrite (is_allowed_match_total (c_match c) rules Hrules); simpl.
  destruct (existsb (found_in re_search (c_match c)) rules); simpl;
    [reflexivity |].
  apply (is_allowed_match_total (c_line c) rules Hrules).
Qed.

Lemma decide_insert l1 rule l2 c d :
  decide re_search (l1 ++ l2) c = Ok d ->
  compiles re_search rule ->
  exists d', decide re_search (l1 ++ rule :: l2) c = Ok d'.
Proof.
  unfold decide. intros Hold Hrule.
  destruct (is_allowed_match re_search (c_match c) (l1 ++ l2))
    as [a | e] eqn:Hm; simpl in Hold; [| discriminate].
  destruct (Hrule (c_match c)) as [b Hb].
  rewrite (is_allowed_match_insert _ l1 rule l2 _ _ Hm Hb); simpl.
  destruct a; simpl; [now eexists |].
  destruct b; simpl; [now eexists |].
  destruct (Hrule (c_line c)) as [b' Hb'].
  rewrite (is_allowed_match_insert _ l1 rule l2 _ _ Hold Hb'). now eexists.
Qed.

End Decisions.

(** ** The file scan screens the candidates *)

Section Screening.
Variable re_search : string -> string -> result bool.

Lemma screen_app rules l1 l2 issues :
  screen re_search rules (l1 ++ l2) issues =
  (issues' <- screen re_search rules l1 issues ;;
   screen re_search rules l2 issues').
Proof.
  revert issues.
  induction l1 as [| c rest IH]; intros issues; simpl; [reflexivity |].
  destruct (decide re_search rules c) as [[|] | e]; simpl;
    [apply IH | apply IH | reflexivity].
Qed.

Lemma screen_sound rules cs issues out :
  screen re_search rules cs issues = Ok out ->
  out = issues ++ map finding_of (survivors re_search rules cs).
Proof.
  revert issues.
  induction cs as [| c rest IH]; intros issues; simpl.
  - intros [= <-]. now rewrite app_nil_r.
  - destruct (decide re_search rules c) as [d | e] eqn:Hd; simpl;
      [| discriminate].
    apply decide_sound in Hd. rewrite <- Hd.
    destruct d; simpl; intros Hrest; apply IH in Hrest.
    + exact Hrest.
    + now rewrite <- app_assoc in Hrest.
Qed.

Lemma screen_total rules cs issues :
  Forall (compiles re_search) rules ->
  screen re_search rules cs issues =
  Ok (issues ++ map finding_of (survivors re_search rules cs)).
Proof.
  intros Hrules. revert issues.
  induction cs as [| c rest IH]; intros issues; simpl.
  - now rewrite app_nil_r.
  - rewrite (decide_total re_search rules c Hrules); simpl.
    destruct (suppressed re_search rules c); simpl; rewrite IH.
    + reflexivity.
    + now rewrite <- app_assoc.
Qed.

Lemma screen_decided rules cs issues out :
  screen re_search rules cs issues = Ok out ->
  forall c, In c cs -> exists d, decide re_search rules c = Ok d.
Proof.
  revert issues.
  induction cs as [| c0 rest IH]; intros issues; simpl; [tauto |].
  destruct (decide re_search rules c0) as [d | e] eqn:Hd; simpl;
    [| discriminate].
  intros Hrest c [<- | Hin]; [now exists d |].
  destruct d; eapply IH; eassumption.
Qed.

Lemma screen_defined rules cs issues :
  (forall c, In c cs -> exists d, decide re_search rules c = Ok d) ->
  exists out, screen re_search rules cs issues = Ok out.
Proof.
  revert issues.
  induction cs as [| c0 rest IH]; intros issues Hall; simpl.
  - now eexists.
  - destruct (Hall c0 (or_introl eq_refl)) as [d ->]; simpl.
    destruct d; apply IH; intros c Hin; apply Hall; now right.
Qed.

Lemma screen_insert l1 rule l2 cs issues out :
  screen re_search (l1 ++ l2) cs issues = Ok out ->
  compiles re_search rule ->
  screen re_search (l1 ++ rule :: l2) cs issues =
  Ok (issues ++
      map finding_of (survivors re_search (l1 ++ rule :: l2) cs)).
Proof.
  intros Hold Hrule.
  destruct (screen_defined (l1 ++ rule :: l2) cs issues) as [out' Hnew].
  - intros c Hin.
    destruct (screen_decided _ _ _ _ Hold c Hin) as [d Hd].
    exact (decide_insert re_search l1 rule l2 c d Hd Hrule).
  - rewrite Hnew. f_equal. now apply screen_sound.
Qed.

Lemma scan_matches_screen file_path rules line_no line pii_type found
    issues :
  scan_matches re_search file_path rules line_no line pii_type found issues
  = screen re_search rules
      (match_candidates file_path line_no line pii_type found) issues.
Proof.
  revert issues.
  induction found as [| group0 rest IH]; intros issues; simpl;
    [reflexivity |].
  unfold decide; simpl.
  destruct (is_allowed_match re_search (normalize_match group0) rules)
    as [[|] | e]; simpl; [apply IH | | reflexivity].
  destruct (is_allowed_match re_search line rules) as [[|] | e]; simpl;
    [apply IH | apply IH | reflexivity].
Qed.

Lemma scan_line_screen file_path rules line_no line patterns issues :
  scan_line re_search file_path rules line_no line patterns issues
  = screen re_search rules
      (line_candidates file_path line_no line patterns) issues.
Proof.
  revert issues.
  induction patterns as [| [pii_type pattern] rest IH]; intros issues;
    simpl; [reflexivity |].
  rewrite screen_app, scan_matches_screen.
  destruct (screen re_search rules _ issues); simpl;
    [apply IH | reflexivity].
Qed.

Lemma scan_lines_screen file_path rules line_no lines issues :
  scan_lines re_search file_path rules line_no lines issues
  = screen re_search rules
      (lines_candidates file_path line_no lines) issues.
Proof.
  revert line_no issues.
  induction lines as [| line rest IH]; intros line_no issues;
    cbn [scan_lines lines_candidates]; [reflexivity |].
  rewrite screen_app, scan_line_screen.
  destruct (screen re_search rules _ issues); cbn [rbind];
    [apply IH | reflexivity].
Qed.

Lemma scan_file_outcome file_path rel read_text rules :
  outcome (scan_file re_search file_path rel read_text rules)
  = screen re_search rules (file_candidates file_path read_text) [].
Proof.
  unfold scan_file. rewrite outcome_bind; simpl.
  destruct read_text as [t | []]; simpl; try reflexivity.
  apply scan_lines_screen.
Qed.

Lemma scan_file_trace file_path rel read_text rules :
  trace (scan_file re_search file_path rel read_text rules) = [Read rel].
Proof.
  unfold scan_file. rewrite trace_bind; simpl.
  destruct read_text as [t | []]; reflexivity.
Qed.

End Screening.

(** ** The traversal *)

Section Traversal.
Variable re_search : string -> string -> result bool.
Variable path_match : Path -> string -> result bool.

Lemma scan_entries_step root allow_paths rules rel kind rest issues :
  outcome (scan_entries re_search path_match root allow_paths rules
             ((rel, kind) :: rest) issues) =
  (ignored <- should_ignore_path path_match rel allow_paths ;;
   match kind with
   | IsDir =>
       outcome (scan_entries re_search path_match root allow_paths rules rest
                  issues)
   | IsFile read_text =>
       if ignored then
         outcome (scan_entries re_search path_match root allow_paths rules
                    rest issues)
       else
         found <- screen re_search rules
                    (file_candidates (root ++ rel) read_text) [] ;;
         outcome (scan_entries re_search path_match root allow_paths rules
                    rest (issues ++ found))
   end).
Proof.
  cbn [scan_entries]. rewrite outcome_bind; cbn [tell outcome snd].
  destruct kind as [| read_text]; rewrite outcome_bind, outcome_lift;
    destruct (should_ignore_path path_match rel allow_paths) as [[|] | e];
    cbn [rbind];
    try reflexivity.
  - now destruct rel.
  - rewrite outcome_bind, scan_file_outcome. reflexivity.
Qed.

Lemma survivors_app rules l1 l2 :
  survivors re_search rules (l1 ++ l2) =
  survivors re_search rules l1 ++ survivors re_search rules l2.
Proof. apply filter_app. Qed.

Lemma entry_candidates_scanned root allow_paths rel read_text :
  should_ignore_path path_match rel allow_paths = Ok false ->
  entry_candidates path_match root allow_paths (rel, IsFile read_text)
  = file_candidates (root ++ rel) read_text.
Proof.
  intros H. unfold entry_candidates, scanned; simpl. now rewrite H.
Qed.

Lemma entry_candidates_skipped root allow_paths rel kind :
  should_ignore_path path_match rel allow_paths <> Ok false ->
  entry_candidates path_match root allow_paths (rel, kind) = [].
Proof.
  intros H. unfold entry_candidates, scanned; simpl.
  destruct kind; [reflexivity |].
  destruct (should_ignore_path path_match rel allow_paths) as [[|] | e];
    congruence.
Qed.

Lemma scan_entries_sound root allow_paths rules entries issues out :
  outcome (scan_entries re_search path_match root allow_paths rules entries
             issues) = Ok out ->
  out = issues ++
        map finding_of
          (survivors re_search rules
             (repo_candidates path_match root allow_paths entries)).
Proof.
  revert issues.
  induction entries as [| [rel kind] rest IH]; intros issues.
  - simpl. intros [= <-]. now rewrite app_nil_r.
  - rewrite scan_entries_step.
    unfold repo_candidates; cbn [flat_map].
    fold (repo_candidates path_match root allow_paths rest).
    rewrite survivors_app, map_app.
    destruct (should_ignore_path path_match rel allow_paths)
      as [ignored | e] eqn:Hi;
      cbn [rbind]; [| discriminate].
    destruct kind as [| read_text].
    + intros H. apply IH in H. rewrite H. reflexivity.
    + destruct ignored.
      * rewrite entry_candidates_skipped by congruence.
        intros H. apply IH in H. rewrite H. reflexivity.
      * rewrite entry_candidates_scanned by assumption.
        destruct (screen re_search rules _ []) as [found | e] eqn:Hf;
          cbn [rbind]; [| discriminate].
        apply screen_sound in Hf. simpl in Hf. subst found.
        intros H. apply IH in H. rewrite H. now rewrite app_assoc.
Qed.

Lemma scan_entries_decided root allow_paths rules entries issues out :
  outcome (scan_entries re_search path_match root allow_paths rules entries
             issues) = Ok out ->
  forall e,
    In e entries ->
    entry_ok re_search path_match root allow_paths rules e.
Proof.
  revert issues.
  induction entries as [| [rel kind] rest IH]; intros issues;
    [intros _ e [] |].
  rewrite scan_entries_step.
  destruct (should_ignore_path path_match rel allow_paths)
    as [ignored | e] eqn:Hi;
    cbn [rbind]; [| discriminate].
  assert (Hskip : ignored = true \/ kind = IsDir ->
            entry_ok re_search path_match root allow_paths rules (rel, kind)).
  { intros Hs. split; [now exists ignored |].
    unfold entry_candidates, scanned; simpl. rewrite Hi.
    destruct Hs as [-> | ->]; [destruct kind |]; intros ? []. }
  destruct kind as [| read_text].
  - intros H e [<- | Hin]; [apply Hskip; now right | eapply IH; eassumption].
  - destruct ignored.
    + intros H e [<- | Hin]; [apply Hskip; now left | eapply IH; eassumption].
    + destruct (screen re_search rules _ []) as [found | e] eqn:Hf;
        cbn [rbind]; [| discriminate].
      intros H e [<- | Hin]; [| eapply IH; eassumption].
      split; [now exists false |].
      rewrite entry_candidates_scanned by assumption.
      eapply screen_decided; eassumption.
Qed.

Lemma scan_entries_defined root allow_paths rules entries issues :
  (forall e, In e entries ->
             entry_ok re_search path_match root allow_paths rules e) ->
  exists out,
    outcome (scan_entries re_search path_match root allow_paths rules entries
               issues) = Ok out.
Proof.
  revert issues.
  induction entries as [| [rel kind] rest IH]; intros issues Hall.
  - now eexists.
  - rewrite scan_entries_step.
    assert (Hrest : forall e, In e rest ->
              entry_ok re_search path_match root allow_paths rules e)
      by (intros e Hin; apply Hall; now right).
    destruct (Hall _ (or_introl eq_refl)) as [[ignored Hi] Hcs].
    simpl in Hi. rewrite Hi; cbn [rbind].
    destruct kind as [| read_text]; [now apply IH |].
    destruct ignored; [now apply IH |].
    rewrite entry_candidates_scanned in Hcs by assumption.
    destruct (screen_defined re_search rules _ [] Hcs) as [found ->].
    cbn [rbind]. now apply IH.
Qed.

End Traversal.

(** ** Where candidates come from *)

Section Origins.
Variable path_match : Path -> string -> result bool.

Lemma lines_candidates_origin file_path start lines c :
  In c (lines_candidates file_path start lines) ->
  c_file c = file_path
  /\ start <= c_line_no c
  /\ nth_error lines (c_line_no c - start) = Some (c_line c)
  /\ exists pattern group0,
       In (c_type c, pattern) PII_PATTERNS
       /\ In group0 (finditer pattern (c_line c))
       /\ c_match c = normalize_match group0.
Proof.
  revert start.
  induction lines as [| line rest IH]; intros start; [intros [] |].
  cbn [lines_candidates]. rewrite in_app_iff. intros [Hhere | Hlater].
  - unfold line_candidates in Hhere. apply in_flat_map in Hhere.
    destruct Hhere as [[kind pattern] [Hp Hc]].
    unfold match_candidates in Hc. apply in_map_iff in Hc.
    destruct Hc as [group0 [<- Hg]]. cbn.
    repeat split; [lia | now rewrite Nat.sub_diag |].
    now exists pattern, group0.
  - destruct (IH _ Hlater) as (Hf & Hn & Hl & Hm).
    repeat split; [exact Hf | lia | | exact Hm].
    replace (c_line_no c - start) with (S (c_line_no c - S start)) by lia.
    exact Hl.
Qed.

Lemma repo_candidates_origin root allow_paths entries c :
  In c (repo_candidates path_match root allow_paths entries) ->
  exists rel text,
    In (rel, IsFile (Text text)) entries
    /\ should_ignore_path path_match rel allow_paths = Ok false
    /\ c_file c = root ++ rel
    /\ 1 <= c_line_no c
    /\ nth_error (Text.splitlines text) (c_line_no c - 1) = Some (c_line c)
    /\ exists pattern group0,
         In (c_type c, pattern) PII_PATTERNS
         /\ In group0 (finditer pattern (c_line c))
         /\ c_match c = normalize_match group0.
Proof.
  unfold repo_candidates. rewrite in_flat_map.
  intros [[rel kind] [He Hc]].
  unfold entry_candidates, scanned in Hc; simpl in Hc.
  destruct kind as [| [text | e]]; try contradiction.
  - destruct (should_ignore_path path_match rel allow_paths)
      as [[|] | e] eqn:Hi; try contradiction.
    simpl in Hc. apply lines_candidates_origin in Hc.
    destruct Hc as (Hf & Hn & Hl & Hm).
    exists rel, text. repeat split; assumption.
  - destruct (should_ignore_path path_match rel allow_paths)
      as [[|] | e']; contradiction.
Qed.

Lemma ignore_excluded rel allow_paths :
  has_excluded_part rel = true ->
  should_ignore_path path_match rel allow_paths = Ok true.
Proof.
  unfold has_excluded_part, should_ignore_path. now intros ->.
Qed.

Lemma kept_has_no_excluded_part rel allow_paths :
  should_ignore_path path_match rel allow_paths = Ok false ->
  forall part, In part rel -> ~ In part DEFAULT_IGNORED_DIRECTORIES.
Proof.
  intros Hi part Hpart Hd.
  rewrite ignore_excluded in Hi; [discriminate |].
  unfold has_excluded_part. apply existsb_exists.
  exists part. split; [exact Hd |].
  unfold Text.mem. apply existsb_exists.
  exists part. split; [exact Hpart | apply String.eqb_refl].
Qed.

Lemma ignore_answers rel allow_paths :
  Forall (answers path_match) allow_paths ->
  exists b, should_ignore_path path_match rel allow_paths = Ok b.
Proof.
  intros Hall. unfold should_ignore_path.
  destruct (existsb _ DEFAULT_IGNORED_DIRECTORIES); [now eexists |].
  destruct (Text.mem _ DEFAULT_IGNORED_FILES); [now eexists |].
  generalize (Text.join_slash rel). intros posix.
  induction Hall as [| entry rest Hentry _ IH]; simpl; [now eexists |].
  destruct (Hentry rel) as [m ->]; simpl.
  destruct (m || _); [now eexists | exact IH].
Qed.

End Origins.

(** ** The driver *)

Section Driver.
Variable re_search : string -> string -> result bool.
Variable path_match : Path -> string -> result bool.

Lemma scan_entries_events root allow_paths rules entries issues ev :
  In ev (trace (scan_entries re_search path_match root allow_paths rules
                  entries issues)) ->
  exists rel, In rel (map fst entries) /\ (ev = Visit rel \/ ev = Read rel).
Proof.
  revert issues.
  induction entries as [| [rel kind] rest IH]; intros issues;
    [intros [] |].
  cbn [scan_entries]. rewrite trace_bind. cbn [tell trace outcome fst snd].
  assert (Hrest : forall acc,
            In ev (trace (scan_entries re_search path_match root allow_paths
                            rules rest acc)) ->
            exists r, In r (map fst ((rel, kind) :: rest))
                      /\ (ev = Visit r \/ ev = Read r)).
  { intros acc H. destruct (IH acc H) as [r [Hr He]].
    exists r. split; [now right | exact He]. }
  intros [<- | Hin]; [exists rel; split; [now left | now left] |].
  destruct kind as [| read_text]; rewrite trace_bind, outcome_lift in Hin;
    cbn [lift trace fst app] in Hin;
    destruct (should_ignore_path path_match rel allow_paths) as [[|] | e];
    try contradiction; try (now apply Hrest with issues).
  - destruct rel; now apply Hrest with issues.
  - rewrite trace_bind, scan_file_trace in Hin.
    destruct Hin as [<- | Hin]; [exists rel; split; [now left | now right] |].
    destruct (outcome (scan_file re_search (root ++ rel) rel read_text rules))
      as [found | e]; [now apply Hrest with (issues ++ found) | contradiction].
Qed.

Lemma main_load_fails w e :
  load_allowlist (arg_allowlist w) = Raise e ->
  main re_search path_match w = ([Print (RuntimeErrorMessage e)], Ok 2%Z).
Proof.
  intros H. unfold main. rewrite H. reflexivity.
Qed.

Lemma main_scan_fails w allow_paths rules e :
  load_allowlist (arg_allowlist w) = Ok (allow_paths, rules) ->
  outcome (scan_repository re_search path_match (arg_root w) (tree w)
             allow_paths rules) = Raise e ->
  main re_search path_match w =
  (trace (scan_repository re_search path_match (arg_root w) (tree w)
            allow_paths rules) ++ [Print (RuntimeErrorMessage e)], Ok 2%Z).
Proof.
  intros Hload Hscan. unfold main. rewrite Hload. cbn [lift bind app].
  destruct (scan_repository re_search path_match (arg_root w) (tree w)
              allow_paths rules) as [t r].
  simpl in Hscan. subst r. reflexivity.
Qed.

Lemma main_sink_fails w allow_paths rules found e :
  load_allowlist (arg_allowlist w) = Ok (allow_paths, rules) ->
  outcome (scan_repository re_search path_match (arg_root w) (tree w)
             allow_paths rules) = Ok found ->
  sink w = Raise e ->
  main re_search path_match w =
  (trace (scan_repository re_search path_match (arg_root w) (tree w)
            allow_paths rules) ++ [Print (RuntimeErrorMessage e)], Ok 2%Z).
Proof.
  intros Hload Hscan Hsink. unfold main, write_report.
  rewrite Hload, Hsink. cbn [lift bind app].
  destruct (scan_repository re_search path_match (arg_root w) (tree w)
              allow_paths rules) as [t r].
  simpl in Hscan. subst r. cbn. now rewrite app_nil_r.
Qed.

Lemma main_reports w allow_paths rules found :
  load_allowlist (arg_allowlist w) = Ok (allow_paths, rules) ->
  outcome (scan_repository re_search path_match (arg_root w) (tree w)
             allow_paths rules) = Ok found ->
  sink w = Ok tt ->
  main re_search path_match w =
  (trace (scan_repository re_search path_match (arg_root w) (tree w)
            allow_paths rules)
   ++ [WriteReport (arg_output w) (report_of w found);
       Print (closing_message found)],
   Ok (exit_status found)).
Proof.
  intros Hload Hscan Hsink. unfold main, write_report.
  rewrite Hload, Hsink. cbn [lift bind app].
  destruct (scan_repository re_search path_match (arg_root w) (tree w)
              allow_paths rules) as [t r].
  simpl in Hscan. subst r. cbn.
  destruct found; rewrite <- app_assoc; reflexivity.
Qed.

Lemma main_written w target r :
  In (WriteReport target r) (trace (main re_search path_match w)) ->
  exists allow_paths rules,
    load_allowlist (arg_allowlist w) = Ok (allow_paths, rules)
    /\ outcome (scan_repository re_search path_match (arg_root w) (tree w)
                  allow_paths rules) = Ok (issues r)
    /\ r = report_of w (issues r)
    /\ target = arg_output w.
Proof.
  destruct (load_allowlist (arg_allowlist w)) as [[allow_paths rules] | e]
    eqn:Hload.
  2: { rewrite (main_load_fails w e Hload). simpl.
       intros [H | []]. discriminate. }
  assert (Hquiet : ~ In (WriteReport target r)
            (trace (scan_repository re_search path_match (arg_root w) (tree w)
                      allow_paths rules))).
  { intros H. apply scan_entries_events in H.
    destruct H as [rel [_ [H | H]]]; discriminate. }
  destruct (outcome (scan_repository re_search path_match (arg_root w)
                       (tree w) allow_paths rules)) as [found | e] eqn:Hscan.
  2: { rewrite (main_scan_fails w _ _ e Hload Hscan). simpl.
       rewrite in_app_iff. intros [H | [H | []]]; [tauto | discriminate]. }
  destruct (sink w) as [[] | e] eqn:Hsink.
  2: { rewrite (main_sink_fails w _ _ found e Hload Hscan Hsink). simpl.
       rewrite in_app_iff. intros [H | [H | []]]; [tauto | discriminate]. }
  rewrite (main_reports w _ _ found Hload Hscan Hsink). simpl.
  rewrite in_app_iff. intros [H | [H | [H | []]]];
    [tauto | | discriminate].
  injection H as <- <-. exists allow_paths, rules. now repeat split.
Qed.

End Driver.

(** ** Suppression *)

Section Survivors.
Variable re_search : string -> string -> result bool.

Lemma suppressed_iff rules c :
  suppressed re_search rules c = true <->
  exists rule,
    In rule rules
    /\ (re_search rule (c_match c) = Ok true
        \/ re_search rule (c_line c) = Ok true).
Proof.
  unfold suppressed. rewrite existsb_exists.
  assert (Hholds : forall r, holds r = true <-> r = Ok true).
  { intros [[|] | e]; simpl; split; congruence. }
  split; intros [rule [Hin Hhit]]; exists rule; split; try exact Hin.
  - unfold hit in Hhit. apply orb_true_iff in Hhit.
    destruct Hhit as [H | H]; apply Hholds in H; tauto.
  - unfold hit. apply orb_true_iff.
    destruct Hhit as [H | H]; apply Hholds in H; tauto.
Qed.

Lemma suppressed_insert l1 rule l2 c :
  suppressed re_search (l1 ++ rule :: l2) c =
  hit re_search rule c || suppressed re_search (l1 ++ l2) c.
Proof.
  unfold suppressed. rewrite !existsb_app. simpl.
  destruct (existsb _ l1), (hit re_search rule c); reflexivity.
Qed.

Lemma survivors_insert l1 rule l2 cs :
  survivors re_search (l1 ++ rule :: l2) cs =
  filter (fun c => negb (hit re_search rule c))
    (survivors re_search (l1 ++ l2) cs).
Proof.
  unfold survivors.
  induction cs as [| c rest IH]; simpl; [reflexivity |].
  rewrite suppressed_insert.
  destruct (suppressed re_search (l1 ++ l2) c); simpl.
  - now rewrite orb_true_r.
  - rewrite orb_false_r.
    destruct (hit re_search rule c); simpl; now rewrite IH.
Qed.

End Survivors.

Section SuppressionProperties.
Variable re_search : string -> string -> result bool.
Variable path_match : Path -> string -> result bool.

Lemma scan_entries_total root allow_paths rules entries issues :
  Forall (compiles re_search) rules ->
  Forall (answers path_match) allow_paths ->
  outcome (scan_entries re_search path_match root allow_paths rules
             entries issues)
  = Ok (issues ++
        map finding_of
          (survivors re_search rules
             (repo_candidates path_match root allow_paths entries))).
Proof.
  intros Hrules Hpaths.
  destruct (scan_entries_defined re_search path_match root allow_paths
              rules entries issues) as [out Hout].
  - intros e _. split.
    + now apply ignore_answers.
    + intros c _. eexists. now apply decide_total.
  - rewrite Hout. f_equal. now apply scan_entries_sound in Hout.
Qed.

Lemma scan_entries_insert root allow_paths l1 rule l2 entries issues out :
  outcome (scan_entries re_search path_match root allow_paths (l1 ++ l2)
             entries issues) = Ok out ->
  compiles re_search rule ->
  outcome (scan_entries re_search path_match root allow_paths
             (l1 ++ rule :: l2) entries issues)
  = Ok (issues ++
        map finding_of
          (survivors re_search (l1 ++ rule :: l2)
             (repo_candidates path_match root allow_paths entries))).
Proof.
  intros Hold Hrule.
  destruct (scan_entries_defined re_search path_match root allow_paths
              (l1 ++ rule :: l2) entries issues) as [out' Hnew].
  - intros e Hin.
    destruct (scan_entries_decided _ _ _ _ _ _ _ _ Hold e Hin) as [Hi Hcs].
    split; [exact Hi |].
    intros c Hc. destruct (Hcs c Hc) as [d Hd].
    exact (decide_insert re_search l1 rule l2 c d Hd Hrule).
  - rewrite Hnew. f_equal. now apply scan_entries_sound in Hnew.
Qed.

End SuppressionProperties.

(** C1.  A candidate of a scan is suppressed exactly when some text rule
    is found, as a search pattern, in its trimmed match or in its whole
    source line.  The findings of a scan that returns are the candidates
    that are not suppressed, in order, and the summary counts exactly
    those; with rules that compile and path rules that answer, the scan
    returns.  The findings of a written report are these candidates. *)
Theorem suppression_is_per_candidate
    (re_search : string -> string -> result bool)
    (path_match : Path -> string -> result bool)
    (root : Path) (t : root_state) (allow_paths rules : list string) :
  let cands := repo_candidates path_match root allow_paths (rglob t) in
  let kept := survivors re_search rules cands in
  (forall c,
      In c cands ->
      exists pattern group0,
        In (c_type c, pattern) PII_PATTERNS
        /\ In group0 (finditer pattern (c_line c))
        /\ c_match c = Text.strip group0)
  /\ (forall c,
         suppressed re_search rules c = true <->
         exists rule,
           In rule rules
           /\ (re_search rule (c_match c) = Ok true
               \/ re_search rule (c_line c) = Ok true))
  /\ (forall c,
         In c kept <-> In c cands /\ suppressed re_search rules c = false)
  /\ (forall found,
         outcome (scan_repository re_search path_match root t allow_paths
                    rules) = Ok found ->
         found = map finding_of kept
         /\ total_findings (summarize found) = List.length kept)
  /\ (Forall (compiles re_search) rules ->
      Forall (answers path_match) allow_paths ->
      outcome (scan_repository re_search path_match root t allow_paths rules)
      = Ok (map finding_of kept))
  /\ (forall w target r,
         In (WriteReport target r) (trace (main re_search path_match w)) ->
         exists paths texts,
           load_allowlist (arg_allowlist w) = Ok (paths, texts)
           /\ issues r =
              map finding_of
                (survivors re_search texts
                   (repo_candidates path_match (arg_root w) paths
                      (rglob (tree w))))
           /\ total_findings (report_summary r) = List.length (issues r)).
Proof.
  intros cands kept. split; [| split; [| split; [| split; [| split]]]].
  - intros c Hc. apply repo_candidates_origin in Hc.
    destruct Hc as (rel & text & _ & _ & _ & _ & _ & Hm). exact Hm.
  - intros c. exact (suppressed_iff re_search rules c).
  - intros c. unfold kept, survivors. rewrite filter_In, negb_true_iff.
    reflexivity.
  - intros found H. apply scan_entries_sound in H. simpl in H.
    split; [exact H |]. rewrite H. simpl. apply length_map.
  - intros Hrules Hpaths. unfold scan_repository.
    now rewrite scan_entries_total.
  - intros w target r Hw. apply main_written in Hw.
    destruct Hw as (paths & texts & Hload & Hfound & Hr & _).
    exists paths, texts. split; [exact Hload | split].
    + apply scan_entries_sound in Hfound. exact Hfound.
    + rewrite Hr at 1. reflexivity.
Qed.

(** ** The library instances answer on the rules used below *)

Lemma py_compiles rule r :
  Re.compile rule = Some r -> compiles py_re_search rule.
Proof.
  intros Hr text. unfold py_re_search. rewrite Hr. now eexists.
Qed.

Lemma py_answers entry :
  Glob.pattern_parts entry <> [] -> answers py_path_match entry.
Proof.
  intros Hparts rel. unfold py_path_match.
  destruct (Glob.pattern_parts entry); [contradiction |].
  destruct (Text.startswith entry "/"); now eexists.
Qed.

Lemma suppression_is_per_candidate_witness :
  outcome (scan_repository py_re_search py_path_match sample_root
             sample_tree ["docs"] ["example\.com"])
  = Ok (map finding_of
          (survivors py_re_search ["example\.com"]
             (repo_candidates py_path_match sample_root ["docs"]
                (rglob sample_tree)))).
Proof.
  apply (suppression_is_per_candidate py_re_search py_path_match sample_root
           sample_tree ["docs"] ["example\.com"]).
  - constructor; [| constructor].
    eapply py_compiles. reflexivity.
  - constructor; [| constructor].
    apply py_answers. discriminate.
Defined.

(** C2, as amended.  When a rule that compiles is added anywhere in the
    text rules of a scan that returned, the next scan returns the earlier
    findings without those whose trimmed match or source line the rule is
    found in; the others stay, in order, and none is added.  If the rule
    is found in the match or line of exactly one earlier finding, exactly
    that finding goes. *)
Theorem added_rule_removes_what_it_hits
    (re_search : string -> string -> result bool)
    (path_match : Path -> string -> result bool)
    (root : Path) (t : root_state) (allow_paths l1 l2 : list string)
    (rule : string) (old : list finding) :
  let cands := repo_candidates path_match root allow_paths (rglob t) in
  let kept := survivors re_search (l1 ++ l2) cands in
  outcome (scan_repository re_search path_match root t allow_paths
             (l1 ++ l2)) = Ok old ->
  compiles re_search rule ->
  old = map finding_of kept
  /\ outcome (scan_repository re_search path_match root t allow_paths
                (l1 ++ rule :: l2))
     = Ok (map finding_of
             (filter (fun c => negb (hit re_search rule c)) kept))
  /\ forall before c after,
       kept = before ++ c :: after ->
       hit re_search rule c = true ->
       (forall d, In d (before ++ after) -> hit re_search rule d = false) ->
       old = map finding_of before ++ finding_of c :: map finding_of after
       /\ outcome (scan_repository re_search path_match root t allow_paths
                     (l1 ++ rule :: l2))
          = Ok (map finding_of before ++ map finding_of after).
Proof.
  intros cands kept Hold Hrule.
  assert (Hnew :
    outcome (scan_repository re_search path_match root t allow_paths
               (l1 ++ rule :: l2))
    = Ok (map finding_of
            (filter (fun c => negb (hit re_search rule c)) kept))).
  { unfold scan_repository in *.
    erewrite scan_entries_insert; [| exact Hold | exact Hrule].
    simpl. now rewrite survivors_insert. }
  assert (Hkept : old = map finding_of kept)
    by (apply scan_entries_sound in Hold; exact Hold).
  split; [exact Hkept | split; [exact Hnew |]].
  intros before c after Hsplit Hc Hothers.
  rewrite Hnew, Hkept, Hsplit, map_app. simpl.
  split; [reflexivity |].
  rewrite filter_app. simpl. rewrite Hc. simpl.
  assert (Hid : forall l,
            (forall d, In d l -> hit re_search rule d = false) ->
            filter (fun c0 => negb (hit re_search rule c0)) l = l).
  { induction l as [| d l IH]; intros Hl; simpl; [reflexivity |].
    rewrite (Hl d (or_introl eq_refl)). simpl.
    rewrite IH; [reflexivity |]. intros d' Hd'. apply Hl. now right. }
  rewrite !Hid, map_app; [reflexivity | |];
    intros d Hd; apply Hothers; apply in_or_app; tauto.
Qed.

Lemma added_rule_removes_what_it_hits_witness :
  outcome (scan_repository py_re_search py_path_match sample_root
             two_line_tree [] ["alice"])
  = Ok [finding_of call_candidate].
Proof.
  assert (Hold :
    outcome (scan_repository py_re_search py_path_match sample_root
               two_line_tree [] ([] ++ []))
    = Ok [finding_of mail_candidate; finding_of call_candidate])
    by (vm_compute; reflexivity).
  assert (Hrule : compiles py_re_search "alice")
    by (eapply py_compiles; reflexivity).
  destruct (added_rule_removes_what_it_hits
              py_re_search py_path_match sample_root two_line_tree
              [] [] [] "alice" _ Hold Hrule) as (_ & _ & Hone).
  refine (proj2 (Hone [] mail_candidate [call_candidate] _ _ _)).
  - vm_compute. reflexivity.
  - vm_compute. reflexivity.
  - intros d [<- | []]. vm_compute. reflexivity.
Defined.

(** C2 as stated fails: on the line [contact_line] the rule
    [example\.com] is found in the matched text of the email finding only,
    yet it is found in the line too, and the phone finding goes with it. *)
Lemma added_rule_removes_line_mates :
  outcome (scan_repository py_re_search py_path_match sample_root
             contacts_tree [] [])
  = Ok [email_finding; phone_finding]
  /\ py_re_search "example\.com" (f_match email_finding) = Ok true
  /\ py_re_search "example\.com" (f_match phone_finding) = Ok false
  /\ outcome (scan_repository py_re_search py_path_match sample_root
                contacts_tree [] ["example\.com"])
     = Ok []
  /\ outcome (scan_repository py_re_search py_path_match sample_root
                contacts_tree [] ["example\.com"])
     <> Ok [phone_finding].
Proof.
  repeat split; try (vm_compute; reflexivity).
  vm_compute. discriminate.
Qed.

(** ** Severity *)

Lemma candidate_severity pattern c :
  In (c_type c, pattern) PII_PATTERNS ->
  In (f_type (finding_of c)) KINDS
  /\ f_severity (finding_of c) = severity_of (f_type (finding_of c)).
Proof.
  intros Hin. split; [| reflexivity].
  apply (in_map fst) in Hin. exact Hin.
Qed.

Lemma scan_findings_kinds re_search path_match root t allow_paths rules
    found f :
  outcome (scan_repository re_search path_match root t allow_paths rules)
  = Ok found ->
  In f found ->
  In (f_type f) KINDS /\ f_severity f = severity_of (f_type f).
Proof.
  intros Hfound Hf.
  apply scan_entries_sound in Hfound. simpl in Hfound. subst found.
  apply in_map_iff in Hf. destruct Hf as [c [<- Hc]].
  apply filter_In in Hc. destruct Hc as [Hc _].
  apply repo_candidates_origin in Hc.
  destruct Hc as (_ & _ & _ & _ & _ & _ & _ & pattern & _ & Hp & _).
  exact (candidate_severity pattern c Hp).
Qed.

Lemma kinds_have_severities f :
  In (f_type f) KINDS /\ f_severity f = severity_of (f_type f) ->
  In (f_severity f) SEVERITIES.
Proof.
  intros [Hkind ->]. simpl in Hkind.
  destruct Hkind as [<- | [<- | [<- | []]]]; simpl; tauto.
Qed.

(** C3.  The catalogue gives email the severity medium and phone and ssn
    the severity high; every finding a scan returns, and every finding of
    every report the program writes, has one of these kinds and the
    severity of its kind. *)
Theorem severity_is_a_function_of_kind :
  (severity_of "email" = "medium"
   /\ severity_of "phone" = "high"
   /\ severity_of "ssn" = "high")
  /\ (forall re_search path_match root t allow_paths rules found f,
         outcome (scan_repository re_search path_match root t allow_paths
                    rules) = Ok found ->
         In f found ->
         In (f_type f) KINDS /\ f_severity f = severity_of (f_type f))
  /\ (forall re_search path_match w target r f,
         In (WriteReport target r) (trace (main re_search path_match w)) ->
         In f (issues r) ->
         In (f_type f) KINDS /\ f_severity f = severity_of (f_type f)).
Proof.
  split; [now repeat split | split; [exact scan_findings_kinds |]].
  intros re_search path_match w target r f Hw Hf.
  apply main_written in Hw.
  destruct Hw as (allow_paths & rules & _ & Hfound & _).
  exact (scan_findings_kinds _ _ _ _ _ _ _ f Hfound Hf).
Qed.

Lemma severity_is_a_function_of_kind_witness :
  In (f_type phone_finding) KINDS
  /\ f_severity phone_finding = severity_of (f_type phone_finding).
Proof.
  refine (proj1 (proj2 severity_is_a_function_of_kind)
            py_re_search py_path_match sample_root contacts_tree [] []
            [email_finding; phone_finding] phone_finding _ _).
  - vm_compute. reflexivity.
  - right. left. reflexivity.
Defined.

(** ** The summary *)

Lemma count_severity_partition issues :
  Forall (fun f => In (f_severity f) SEVERITIES) issues ->
  count_severity "high" issues + count_severity "medium" issues
  + count_severity "low" issues = List.length issues.
Proof.
  unfold count_severity.
  induction 1 as [| f rest Hf _ IH]; [reflexivity |].
  simpl in Hf. cbn [filter List.length].
  destruct Hf as [<- | [<- | [<- | []]]]; cbn [String.eqb Ascii.eqb Bool.eqb];
    cbn [List.length]; lia.
Qed.

Lemma count_severity_le issues :
  count_severity "high" issues + count_severity "medium" issues
  + count_severity "low" issues <= List.length issues.
Proof.
  unfold count_severity.
  induction issues as [| f rest IH]; [reflexivity |].
  cbn [filter].
  destruct (String.eqb (f_severity f) "high") eqn:Hh.
  - apply String.eqb_eq in Hh. rewrite Hh. cbn. lia.
  - destruct (String.eqb (f_severity f) "medium") eqn:Hm.
    + apply String.eqb_eq in Hm. rewrite Hm. cbn. lia.
    + destruct (String.eqb (f_severity f) "low"); cbn [List.length]; lia.
Qed.

(** C4.  The summary of a report has [total_findings] equal to the length
    of the finding list and a [by_severity] mapping with exactly the keys
    high, medium and low, each with the number of findings of that
    severity; the counts never exceed the total and, the severities of
    the findings being among the three, they sum to it.  The empty list
    gives total 0 and zero counts.  [write_report] writes this summary,
    and in every report the program writes the counts sum to the total. *)
Theorem summary_counts :
  (forall found,
      total_findings (summarize found) = List.length found
      /\ map fst (by_severity (summarize found)) = SEVERITIES
      /\ (forall level n,
             In (level, n) (by_severity (summarize found)) ->
             n = List.length
                   (filter (fun f => String.eqb (f_severity f) level) found))
      /\ sum_counts (by_severity (summarize found))
         <= total_findings (summarize found)
      /\ (Forall (fun f => In (f_severity f) SEVERITIES) found ->
          sum_counts (by_severity (summarize found))
          = total_findings (summarize found))
      /\ (forall now target root,
             write_report (Ok tt) now target found root =
             ([WriteReport target
                 {| generated_at := (now ++ "Z")%string;
                    repository_root := path_str root;
                    issues := found;
                    report_summary := summarize found |}], Ok tt)))
  /\ summarize [] =
     {| total_findings := 0;
        by_severity := [("high", 0); ("medium", 0); ("low", 0)] |}
  /\ (forall re_search path_match w target r,
         In (WriteReport target r) (trace (main re_search path_match w)) ->
         report_summary r = summarize (issues r)
         /\ total_findings (report_summary r) = List.length (issues r)
         /\ sum_counts (by_severity (report_summary r))
            = total_findings (report_summary r)).
Proof.
  assert (Hsum : forall found,
            Forall (fun f => In (f_severity f) SEVERITIES) found ->
            sum_counts (by_severity (summarize found))
            = total_findings (summarize found)).
  { intros found Hwf. pose proof (count_severity_partition found Hwf) as H.
    simpl. lia. }
  split; [| split; [reflexivity |]].
  - intros found.
    split; [reflexivity | split; [reflexivity | split; [| split; [| split]]]].
    + intros level n [H | [H | [H | []]]]; injection H as <- <-; reflexivity.
    + pose proof (count_severity_le found) as H. simpl. lia.
    + apply Hsum.
    + reflexivity.
  - intros re_search path_match w target r Hw.
    apply main_written in Hw.
    destruct Hw as (allow_paths & rules & _ & Hfound & Hr & _).
    assert (Hs : report_summary r = summarize (issues r))
      by (rewrite Hr at 1; reflexivity).
    rewrite Hs. split; [reflexivity | split; [reflexivity |]].
    apply Hsum. apply Forall_forall. intros f Hf.
    apply kinds_have_severities.
    exact (scan_findings_kinds _ _ _ _ _ _ _ f Hfound Hf).
Qed.

Lemma summary_counts_witness :
  sum_counts (by_severity (summarize [email_finding; phone_finding]))
  = total_findings (summarize [email_finding; phone_finding]).
Proof.
  apply (proj1 summary_counts [email_finding; phone_finding]).
  repeat constructor; simpl; tauto.
Defined.

(** ** Excluded directories and unreadable files *)

Section Exclusions.
Variable re_search : string -> string -> result bool.
Variable path_match : Path -> string -> result bool.

Lemma scan_entries_drop_excluded root allow_paths rules entries issues :
  outcome (scan_entries re_search path_match root allow_paths rules entries
             issues)
  = outcome (scan_entries re_search path_match root allow_paths rules
               (filter (fun e => negb (has_excluded_part (fst e))) entries)
               issues).
Proof.
  revert issues.
  induction entries as [| [rel kind] rest IH]; intros issues;
    [reflexivity |].
  cbn [filter fst]. rewrite scan_entries_step.
  destruct (has_excluded_part rel) eqn:Hx; cbn [negb].
  - rewrite (ignore_excluded path_match rel allow_paths Hx). cbn [rbind].
    destruct kind; apply IH.
  - rewrite scan_entries_step.
    destruct (should_ignore_path path_match rel allow_paths) as [[|] | e];
      cbn [rbind]; try reflexivity; destruct kind as [| read_text];
      try apply IH.
    destruct (screen re_search rules _ []); cbn [rbind];
      [apply IH | reflexivity].
Qed.

Lemma scan_entries_skip_unreadable root allow_paths rules before rel e after
    issues b :
  should_ignore_path path_match rel allow_paths = Ok b ->
  outcome (scan_entries re_search path_match root allow_paths rules
             (before ++ (rel, IsFile (Unreadable e)) :: after) issues)
  = outcome (scan_entries re_search path_match root allow_paths rules
               (before ++ after) issues).
Proof.
  intros Hb. revert issues.
  induction before as [| [rel0 kind0] rest IH]; intros issues.
  - cbn [app]. rewrite scan_entries_step, Hb. cbn [rbind].
    destruct b; [reflexivity |]. simpl. now rewrite app_nil_r.
  - cbn [app]. rewrite !scan_entries_step.
    destruct (should_ignore_path path_match rel0 allow_paths) as [[|] | e0];
      cbn [rbind]; try reflexivity; destruct kind0 as [| read_text];
      try apply IH.
    destruct (screen re_search rules _ []); cbn [rbind];
      [apply IH | reflexivity].
Qed.

Lemma excluded_never_read root allow_paths rules entries issues rel :
  has_excluded_part rel = true ->
  ~ In (Read rel)
      (trace (scan_entries re_search path_match root allow_paths rules
                entries issues)).
Proof.
  intros Hx. revert issues.
  induction entries as [| [rel0 kind] rest IH]; intros issues; [intros [] |].
  cbn [scan_entries]. rewrite trace_bind. cbn [tell trace outcome fst snd].
  intros [H | Hin]; [discriminate |].
  destruct kind as [| read_text]; rewrite trace_bind, outcome_lift in Hin;
    cbn [lift trace fst app] in Hin;
    destruct (should_ignore_path path_match rel0 allow_paths)
      as [[|] | e] eqn:Hi;
    try contradiction; try (now apply IH in Hin).
  - destruct rel0; now apply IH in Hin.
  - rewrite trace_bind, scan_file_trace in Hin.
    destruct Hin as [H | Hin].
    + injection H as ->.
      rewrite (ignore_excluded path_match rel allow_paths Hx) in Hi.
      discriminate.
    + destruct (outcome (scan_file re_search (root ++ rel0) rel0 read_text
                           rules)); [now apply IH in Hin | contradiction].
Qed.

End Exclusions.

(** C5.  Every finding of a scan names a file of the tree that was read as
    text and whose relative path has no component in the built-in
    directory set; the outcome of a scan is the outcome of the scan of the
    entries left when those with such a component are removed, whatever
    they contain, and no file with such a component is read. *)
Theorem excluded_directories_yield_nothing
    (re_search : string -> string -> result bool)
    (path_match : Path -> string -> result bool)
    (root : Path) (t : root_state) (allow_paths rules : list string) :
  (forall found f,
      outcome (scan_repository re_search path_match root t allow_paths rules)
      = Ok found ->
      In f found ->
      exists rel text,
        In (rel, IsFile (Text text)) (rglob t)
        /\ f_file f = path_str (root ++ rel)
        /\ forall part, In part rel -> ~ In part DEFAULT_IGNORED_DIRECTORIES)
  /\ outcome (scan_repository re_search path_match root t allow_paths rules)
     = outcome (scan_entries re_search path_match root allow_paths rules
                  (filter (fun e => negb (has_excluded_part (fst e)))
                     (rglob t)) [])
  /\ (forall rel,
         has_excluded_part rel = true ->
         ~ In (Read rel)
             (trace (scan_repository re_search path_match root t allow_paths
                       rules))).
Proof.
  split; [| split].
  - intros found f Hfound Hf.
    apply scan_entries_sound in Hfound. simpl in Hfound. subst found.
    apply in_map_iff in Hf. destruct Hf as [c [<- Hc]].
    apply filter_In in Hc. destruct Hc as [Hc _].
    apply repo_candidates_origin in Hc.
    destruct Hc as (rel & text & Hin & Hi & Hfile & _).
    exists rel, text. split; [exact Hin | split].
    + simpl. now rewrite Hfile.
    + exact (kept_has_no_excluded_part path_match rel allow_paths Hi).
  - apply scan_entries_drop_excluded.
  - intros rel Hx. apply excluded_never_read. exact Hx.
Qed.

Lemma excluded_directories_yield_nothing_witness :
  exists rel text,
    In (rel, IsFile (Text text)) (rglob sample_tree)
    /\ f_file (finding_of
                 (Candidate ["repo"; "src"; "app.py"] 1 "ssn = 123-45-6789"
                    "ssn" "123-45-6789"))
       = path_str (sample_root ++ rel)
    /\ forall part, In part rel -> ~ In part DEFAULT_IGNORED_DIRECTORIES.
Proof.
  refine (proj1 (excluded_directories_yield_nothing
                   py_re_search py_path_match sample_root sample_tree
                   ["docs"] ["example\.com"])
            [finding_of
               (Candidate ["repo"; "src"; "app.py"] 1 "ssn = 123-45-6789"
                  "ssn" "123-45-6789")] _ _ _).
  - vm_compute. reflexivity.
  - left. reflexivity.
Defined.

(** C6 fails on the code: the traversal enumerates the whole tree, so the
    entries below [node_modules] are visited (each is yielded by [rglob]
    and tested with [is_dir]) although none of them is read. *)
Theorem excluded_subtree_is_walked :
  let run := scan_repository py_re_search py_path_match sample_root
               sample_tree [] [] in
  has_excluded_part ["node_modules"] = true
  /\ In (Visit ["node_modules"; "a.txt"]) (trace run)
  /\ In (Visit ["node_modules"; "pkg"]) (trace run)
  /\ In (Visit ["node_modules"; "pkg"; "index.js"]) (trace run)
  /\ ~ In (Read ["node_modules"; "a.txt"]) (trace run)
  /\ ~ In (Read ["node_modules"; "pkg"; "index.js"]) (trace run).
Proof.
  intros run. split; [reflexivity |].
  assert (Htrace : trace run =
    [Visit ["README.md"]; Read ["README.md"];
     Visit ["node_modules"]; Visit ["src"]; Visit ["yarn.lock"];
     Visit ["node_modules"; "a.txt"]; Visit ["node_modules"; "pkg"];
     Visit ["node_modules"; "pkg"; "index.js"];
     Visit ["src"; "app.py"]; Read ["src"; "app.py"];
     Visit ["src"; "blob.bin"]; Read ["src"; "blob.bin"]])
    by (vm_compute; reflexivity).
  rewrite Htrace. simpl.
  repeat split; try tauto;
    intros H; repeat (destruct H as [H | H]; [discriminate |]); exact H.
Qed.

(** C7.  A file whose reading raises [OSError] or [UnicodeDecodeError]
    gives the empty finding list and no error, and the scan of a tree
    goes on as if the file were not there. *)
Theorem unreadable_file_contributes_nothing
    (re_search : string -> string -> result bool)
    (path_match : Path -> string -> result bool)
    (root : Path) (allow_paths rules : list string)
    (rel : Path) (e : read_failure) :
  (forall file_path,
      scan_file re_search file_path rel (Unreadable e) rules
      = ([Read rel], Ok []))
  /\ (forall before after issues b,
         should_ignore_path path_match rel allow_paths = Ok b ->
         outcome (scan_entries re_search path_match root allow_paths rules
                    (before ++ (rel, IsFile (Unreadable e)) :: after) issues)
         = outcome (scan_entries re_search path_match root allow_paths rules
                      (before ++ after) issues)).
Proof.
  split.
  - intros file_path. now destruct e.
  - intros before after issues b Hb.
    now apply scan_entries_skip_unreadable with b.
Qed.

Lemma unreadable_file_contributes_nothing_witness :
  outcome (scan_entries py_re_search py_path_match sample_root [] []
             ([(["a.txt"], IsFile (Text contact_line))]
              ++ (["blob.bin"], IsFile (Unreadable os_error))
                 :: [(["b.txt"], IsFile (Text "ssn 123-45-6789"))]) [])
  = outcome (scan_entries py_re_search py_path_match sample_root [] []
               ([(["a.txt"], IsFile (Text contact_line))]
                ++ [(["b.txt"], IsFile (Text "ssn 123-45-6789"))]) []).
Proof.
  apply (proj2 (unreadable_file_contributes_nothing
                  py_re_search py_path_match sample_root [] []
                  ["blob.bin"] os_error)) with (b := false).
  vm_compute. reflexivity.
Defined.

(** ** The root and the allowlist file *)


Lemma rglob_unlistable t : unlistable t -> rglob t = [].
Proof. intros [-> | [-> | ->]]; reflexivity. Qed.

Lemma main_is_main_with re_search path_match w :
  main re_search path_match w
  = main_with (scan_repository re_search path_match (arg_root w) (tree w)) w.
Proof. reflexivity. Qed.

Lemma scan_from_examined re_search path_match root t allow_paths rules :
  scan_from re_search path_match root (Ok tt) t allow_paths rules
  = scan_repository re_search path_match root t allow_paths rules.
Proof.
  unfold scan_from, bind, lift.
  now destruct (scan_repository re_search path_match root t allow_paths rules).
Qed.

Lemma main_from_examined re_search path_match w :
  main_from re_search path_match (Ok tt) w = main re_search path_match w.
Proof.
  rewrite main_is_main_with. unfold main_from, main_with.
  destruct (load_allowlist (arg_allowlist w)) as [[allow_paths rules] | e];
    [| reflexivity].
  cbn [lift bind app]. now rewrite scan_from_examined.
Qed.

(** C8, as amended.  What a root that cannot be listed does depends on
    whether it could be examined.  A root that is missing, is not a
    directory, or is a directory whose listing is denied is traversed as
    an empty tree: the scan returns the empty finding list without error
    and, the allowlist being loaded and the report file writable, the run
    writes a report with no finding, total 0 and zero counts, and ends
    with status 0.  A root that could not be examined is fatal: the scan
    raises the error of the test before it visits anything, and the run
    prints an error and ends with status 2 without a report. *)
Theorem unlistable_root_is_fatal_only_unexamined
    (re_search : string -> string -> result bool)
    (path_match : Path -> string -> result bool)
    (w : world) (allow_paths rules : list string) :
  (unlistable (tree w) ->
   scan_from re_search path_match (arg_root w) (Ok tt) (tree w) allow_paths
     rules = ([], Ok [])
   /\ (load_allowlist (arg_allowlist w) = Ok (allow_paths, rules) ->
       sink w = Ok tt ->
       main_from re_search path_match (Ok tt) w
       = ([WriteReport (arg_output w) (report_of w []); Print CleanMessage],
          Ok 0%Z))
   /\ issues (report_of w []) = []
   /\ report_summary (report_of w []) =
      {| total_findings := 0;
         by_severity := [("high", 0); ("medium", 0); ("low", 0)] |})
  /\ (forall e,
         scan_from re_search path_match (arg_root w) (Raise e) (tree w)
           allow_paths rules = ([], Raise e)
         /\ (load_allowlist (arg_allowlist w) = Ok (allow_paths, rules) ->
             main_from re_search path_match (Raise e) w
             = ([Print (RuntimeErrorMessage e)], Ok 2%Z))
         /\ exists e',
              main_from re_search path_match (Raise e) w
              = ([Print (RuntimeErrorMessage e')], Ok 2%Z))
  /\ main_from re_search path_match (Ok tt) w = main re_search path_match w.
Proof.
  split; [| split; [| apply main_from_examined]].
  - intros Hroot.
    assert (Hscan :
      scan_repository re_search path_match (arg_root w) (tree w) allow_paths
        rules = ([], Ok []))
      by (unfold scan_repository; now rewrite (rglob_unlistable _ Hroot)).
    split; [now rewrite scan_from_examined |
            split; [| split; reflexivity]].
    intros Hload Hsink. rewrite main_from_examined.
    rewrite (main_reports re_search path_match w allow_paths rules []
               Hload (f_equal snd Hscan) Hsink).
    now rewrite Hscan.
  - intros e. split; [reflexivity | split].
    + intros Hload. unfold main_from, main_with. now rewrite Hload.
    + unfold main_from, main_with.
      destruct (load_allowlist (arg_allowlist w)) as [[paths texts] | e0].
      * now exists e.
      * now exists e0.
Qed.

Lemma unlistable_root_is_fatal_only_unexamined_witness :
  main_from py_re_search py_path_match (Ok tt) closed_root_world
  = ([WriteReport ["out"; "pii_report.json"]
        (report_of closed_root_world []);
      Print CleanMessage], Ok 0%Z).
Proof.
  assert (Hroot : unlistable (tree closed_root_world))
    by (right; right; reflexivity).
  destruct (proj1 (unlistable_root_is_fatal_only_unexamined
                     py_re_search py_path_match closed_root_world [] [])
              Hroot) as (_ & Hrun & _).
  apply Hrun; reflexivity.
Defined.

(** C8 as stated fails: with a missing root the run reports no error; it
    writes a report without findings and ends with status 0. *)
Lemma missing_root_is_not_fatal :
  let run := main py_re_search py_path_match (sample_world Absent RootMissing)
  in
  outcome run = Ok 0%Z
  /\ trace run =
     [WriteReport ["repo"; "reports"; "pii_report.json"]
        {| generated_at := "2024-01-01T00:00:00Z";
           repository_root := "repo";
           issues := [];
           report_summary :=
             {| total_findings := 0;
                by_severity := [("high", 0); ("medium", 0); ("low", 0)] |} |};
      Print CleanMessage]
  /\ outcome run <> Ok 2%Z
  /\ (forall e, ~ In (Print (RuntimeErrorMessage e)) (trace run)).
Proof.
  vm_compute. repeat split; try discriminate.
  intros e [H | [H | []]]; discriminate.
Qed.

(** C9.  On a file whose content is the line [contact_line], with or
    without a final line break, a scan with no text rule returns two
    findings, an email of severity medium with match [alice@example.com]
    and a phone of severity high with match [555-123-4567], both on line
    1; a scan with the single rule [example\.com] returns none. *)
Theorem contact_line_scenario (file_path rel : Path) :
  let found :=
    [{| f_file := path_str file_path;
        f_line := 1;
        f_type := "email";
        f_match := "alice@example.com";
        f_severity := "medium";
        f_context := contact_line |};
     {| f_file := path_str file_path;
        f_line := 1;
        f_type := "phone";
        f_match := "555-123-4567";
        f_severity := "high";
        f_context := contact_line |}] in
  (forall re_search,
      scan_file re_search file_path rel (Text contact_line) []
      = ([Read rel], Ok found)
      /\ scan_file re_search file_path rel
           (Text (contact_line ++ newline)%string) []
         = ([Read rel], Ok found))
  /\ scan_file py_re_search file_path rel (Text contact_line)
       ["example\.com"]
     = ([Read rel], Ok [])
  /\ scan_file py_re_search file_path rel
       (Text (contact_line ++ newline)%string) ["example\.com"]
     = ([Read rel], Ok []).
Proof.
  intros found. repeat split; vm_compute; reflexivity.
Qed.



(** * Further properties of the scanner *)

(** ** Loading the allowlist *)

Lemma items_at_cons h place items l :
  items_at ((place, items) :: h) l
  = if place =? l then items else items_at h l.
Proof.
  unfold items_at. simpl. now destruct (place =? l).
Qed.

Lemma items_at_beyond h l :
  list_max (map fst h) < l -> items_at h l = [].
Proof.
  unfold items_at.
  induction h as [| [k v] rest IH]; simpl; [reflexivity |].
  intros Hl. destruct (k =? l) eqn:Hk.
  - apply Nat.eqb_eq in Hk. lia.
  - apply IH. lia.
Qed.

Lemma new_list_items h l :
  items_at (snd (new_list h)) l = items_at h l.
Proof.
  unfold new_list. cbn [snd]. rewrite items_at_cons.
  destruct (S (list_max (map fst h)) =? l) eqn:Hl; [| reflexivity].
  apply Nat.eqb_eq in Hl. symmetry. apply items_at_beyond. lia.
Qed.

Lemma new_list_place h :
  exists place,
    fst (new_list h) = VList place /\ items_at h place = [].
Proof.
  exists (S (list_max (map fst h))). split; [reflexivity |].
  apply items_at_beyond. lia.
Qed.

Lemma truthy_same h h' v :
  (forall l, items_at h' l = items_at h l) -> truthy h' v = truthy h v.
Proof.
  intros Hsame. destruct v; simpl; try reflexivity. now rewrite Hsame.
Qed.

Lemma chosen_same h h' items key :
  (forall l, items_at h' l = items_at h l) ->
  chosen h' items key = chosen h items key.
Proof.
  intros Hsame. unfold chosen.
  destruct (py_get items key) as [v |]; [| reflexivity].
  now rewrite (truthy_same h h' v Hsame).
Qed.

Lemma iterate_same h h' v :
  (forall l, items_at h' l = items_at h l) -> iterate h' v = iterate h v.
Proof.
  intros Hsame. destruct v; simpl; try reflexivity. now rewrite Hsame.
Qed.

Lemma entries_under_items h items key l :
  items_at (snd (entries_under h items key)) l = items_at h l.
Proof.
  unfold entries_under.
  destruct (chosen h items key); [reflexivity | apply new_list_items].
Qed.

Lemma entries_under_value h items key :
  match chosen h items key with
  | Some v => fst (entries_under h items key) = v
  | None =>
      exists place,
        fst (entries_under h items key) = VList place
        /\ items_at h place = []
  end.
Proof.
  unfold entries_under.
  destruct (chosen h items key); [reflexivity | apply new_list_place].
Qed.

Lemma chosen_list_in_use h items key place :
  chosen h items key = Some (VList place) -> items_at h place <> [].
Proof.
  unfold chosen. destruct (py_get items key) as [v |]; [| discriminate].
  destruct (truthy h v) eqn:Ht; [| discriminate].
  intros [= ->]. simpl in Ht. now destruct (items_at h place).
Qed.

Lemma entries_under_new h items key :
  chosen h items key = None ->
  entries_under h items key
  = (VList (S (list_max (map fst h))), (S (list_max (map fst h)), []) :: h).
Proof.
  intros Hnone. unfold entries_under. now rewrite Hnone.
Qed.

Lemma entries_under_kept h items key v :
  chosen h items key = Some v -> entries_under h items key = (v, h).
Proof.
  intros Hsome. unfold entries_under. now rewrite Hsome.
Qed.

Lemma entries_iterate h0 h items :
  (forall l, items_at h0 l = items_at h l) ->
  iterate (snd (entries_under h0 items "patterns"))
    (fst (entries_under h0 items "patterns"))
  = extension h items.
Proof.
  intros Hsame. unfold extension.
  rewrite <- (chosen_same h h0 items "patterns" Hsame).
  destruct (chosen h0 items "patterns") as [v |] eqn:Hx.
  - rewrite (entries_under_kept _ _ _ _ Hx). cbn [fst snd].
    now apply iterate_same.
  - rewrite (entries_under_new _ _ _ Hx). cbn [fst snd iterate].
    rewrite items_at_cons, Nat.eqb_refl. reflexivity.
Qed.

Lemma load_dict items h :
  load_allowlist_objects (Loaded (Ok (VDict items, h)))
  = let e1 := entries_under h items "paths" in
    let e2 := entries_under (snd e1) items "regexes" in
    match fst e2 with
    | VList place =>
        let e3 := entries_under (snd e2) items "patterns" in
        extension <- iterate (snd e3) (fst e3) ;;
        Ok (fst e1, fst e2,
            (place, items_at (snd e3) place ++ extension) :: snd e3)
    | _ => Raise AttributeError
    end.
Proof.
  assert (Hdata : (if truthy h (VDict items) then VDict items else VDict [])
                  = VDict items) by (now destruct items).
  unfold load_allowlist_objects. cbn [rbind]. rewrite Hdata. cbn zeta.
  destruct (entries_under h items "paths") as [p h1]. cbn [fst snd].
  destruct (entries_under h1 items "regexes") as [r h2]. cbn [fst snd].
  destruct r; try reflexivity.
  now destruct (entries_under h2 items "patterns") as [x h3].
Qed.

Lemma load_regexes_not_list items h v :
  chosen h items "regexes" = Some v ->
  (forall l, v <> VList l) ->
  load_allowlist_objects (Loaded (Ok (VDict items, h)))
  = Raise AttributeError.
Proof.
  intros Hr Hv. rewrite load_dict. cbn zeta.
  assert (Hr1 : chosen (snd (entries_under h items "paths")) items "regexes"
                = Some v).
  { rewrite <- Hr. apply chosen_same. apply entries_under_items. }
  rewrite (entries_under_kept _ _ _ _ Hr1). cbn [fst].
  destruct v; try reflexivity. now destruct (Hv place).
Qed.

Lemma load_dict_result items h :
  (forall v, chosen h items "regexes" = Some v -> exists l, v = VList l) ->
  exists p l h3,
    load_allowlist_objects (Loaded (Ok (VDict items, h)))
    = (ext <- extension h items ;;
       Ok (p, VList l, (l, items_at h l ++ ext) :: h3))
    /\ (forall l', items_at h3 l' = items_at h l')
    /\ (forall v, chosen h items "regexes" = Some v -> v = VList l)
    /\ (chosen h items "regexes" = None -> items_at h l = [])
    /\ (forall v, chosen h items "paths" = Some v -> p = v)
    /\ (chosen h items "paths" = None ->
        exists a, p = VList a /\ a <> l /\ items_at h a = []).
Proof.
  intros Hlist. rewrite load_dict. cbn zeta.
  set (e1 := entries_under h items "paths").
  assert (H1 : forall l, items_at (snd e1) l = items_at h l)
    by (intros l; apply entries_under_items).
  set (e2 := entries_under (snd e1) items "regexes").
  assert (H2 : forall l, items_at (snd e2) l = items_at h l)
    by (intros l; unfold e2; now rewrite entries_under_items).
  set (e3 := entries_under (snd e2) items "patterns").
  assert (H3 : forall l, items_at (snd e3) l = items_at h l)
    by (intros l; unfold e3; now rewrite entries_under_items).
  assert (Hr1 : chosen (snd e1) items "regexes" = chosen h items "regexes")
    by (now apply chosen_same).
  assert (Hext : iterate (snd e3) (fst e3) = extension h items)
    by (now apply entries_iterate).
  destruct (chosen h items "regexes") as [v |] eqn:Hr.
  - destruct (Hlist v eq_refl) as [l ->].
    assert (He2 : e2 = (VList l, snd e1))
      by (now apply entries_under_kept).
    exists (fst e1), l, (snd e3).
    rewrite He2 in *. cbn [fst snd] in *. rewrite Hext, H3.
    split; [reflexivity | split; [exact H3 | split; [| split; [| split]]]].
    + now intros v [= <-].
    + discriminate.
    + intros v Hp. unfold e1. now rewrite (entries_under_kept _ _ _ _ Hp).
    + intros Hp. unfold e1. rewrite (entries_under_new _ _ _ Hp). cbn [fst].
      exists (S (list_max (map fst h))).
      assert (Hnew : items_at h (S (list_max (map fst h))) = [])
        by (apply items_at_beyond; lia).
      split; [reflexivity | split; [| exact Hnew]].
      intros Heq. apply (chosen_list_in_use _ _ _ _ Hr). now rewrite <- Heq.
  - assert (He2 : e2 = (VList (S (list_max (map fst (snd e1)))),
                        (S (list_max (map fst (snd e1))), []) :: snd e1))
      by (now apply entries_under_new).
    set (l := S (list_max (map fst (snd e1)))) in *.
    assert (Hl : items_at h l = []).
    { rewrite <- H1. apply items_at_beyond. unfold l. lia. }
    exists (fst e1), l, (snd e3).
    rewrite He2. cbn [fst]. rewrite Hext, H3.
    split; [reflexivity | split; [exact H3 | split; [| split; [| split]]]].
    + discriminate.
    + intros _. exact Hl.
    + intros v Hp. unfold e1. now rewrite (entries_under_kept _ _ _ _ Hp).
    + intros Hp. unfold l, e1. rewrite (entries_under_new _ _ _ Hp).
      cbn [fst snd map list_max fold_right].
      exists (S (list_max (map fst h))).
      split; [reflexivity | split; [lia |]].
      apply items_at_beyond. lia.
Qed.

Lemma load_falsy data h :
  truthy h data = false ->
  load_allowlist_objects (Loaded (Ok (data, h)))
  = load_allowlist_objects (Loaded (Ok (VDict [], h))).
Proof.
  intros Hfalse. unfold load_allowlist_objects. cbn [rbind].
  now rewrite Hfalse.
Qed.

Lemma load_not_mapping data h :
  (forall items, data <> VDict items) ->
  truthy h data = true ->
  load_allowlist_objects (Loaded (Ok (data, h))) = Raise AttributeError.
Proof.
  intros Hdata Htrue. unfold load_allowlist_objects. cbn [rbind].
  rewrite Htrue. destruct data; try reflexivity. now destruct (Hdata items).
Qed.

Lemma py_get_other before k v after key :
  k <> VStr key ->
  py_get (before ++ (k, v) :: after) key = py_get (before ++ after) key.
Proof.
  intros Hk.
  induction before as [| [k0 v0] rest IH]; simpl.
  - destruct k; try reflexivity.
    destruct (String.eqb s key) eqn:Hs; [| reflexivity].
    apply String.eqb_eq in Hs. congruence.
  - destruct k0; try exact IH. now rewrite IH.
Qed.

(** X1.  [load_allowlist] on the objects of a document.  A document that
    is not a mapping raises AttributeError when it is truthy and loads as
    two empty lists when it is falsy.  In a mapping, a truthy value under
    regexes that is not a list raises AttributeError, and a truthy value
    under patterns that cannot be iterated raises TypeError.  Otherwise
    loading returns: the text rules are the list kept under regexes, or a
    new one, extended in place with the items drawn from patterns, no
    other list changes, and the path rules are the value kept under paths,
    or a new empty list.  So when paths and regexes hold one list, through
    an alias, the path rules receive the patterns as well.  A key other
    than the three changes nothing, and on a document without shared
    lists the result is the one of [load_allowlist]. *)
Theorem load_allowlist_shares_lists :
  (forall data h,
      (forall items, data <> VDict items) ->
      (truthy h data = true ->
       load_allowlist_objects (Loaded (Ok (data, h))) = Raise AttributeError)
      /\ (truthy h data = false ->
          exists p r h',
            load_allowlist_objects (Loaded (Ok (data, h))) = Ok (p, r, h')
            /\ contents h' p = [] /\ contents h' r = []))
  /\ (forall items h v,
         chosen h items "regexes" = Some v ->
         (forall l, v <> VList l) ->
         load_allowlist_objects (Loaded (Ok (VDict items, h)))
         = Raise AttributeError)
  /\ (forall items h,
         (forall v, chosen h items "regexes" = Some v ->
                    exists l, v = VList l) ->
         (forall e,
             extension h items = Raise e ->
             e = TypeError
             /\ load_allowlist_objects (Loaded (Ok (VDict items, h)))
                = Raise e)
         /\ (forall ext,
                extension h items = Ok ext ->
                exists p l h',
                  load_allowlist_objects (Loaded (Ok (VDict items, h)))
                  = Ok (p, VList l, h')
                  /\ items_at h' l = items_at h l ++ ext
                  /\ (forall l', l' <> l -> items_at h' l' = items_at h l')
                  /\ (forall v,
                         chosen h items "regexes" = Some v -> v = VList l)
                  /\ (chosen h items "regexes" = None -> items_at h l = [])
                  /\ (forall v, chosen h items "paths" = Some v -> p = v)
                  /\ (chosen h items "paths" = None ->
                      exists a,
                        p = VList a /\ a <> l /\ items_at h a = [])))
  /\ (forall items h l ext,
         chosen h items "paths" = Some (VList l) ->
         chosen h items "regexes" = Some (VList l) ->
         extension h items = Ok ext ->
         exists h',
           load_allowlist_objects (Loaded (Ok (VDict items, h)))
           = Ok (VList l, VList l, h')
           /\ contents h' (VList l) = items_at h l ++ ext)
  /\ (forall before k v after h,
         k <> VStr "paths" -> k <> VStr "regexes" -> k <> VStr "patterns" ->
         load_allowlist_objects
           (Loaded (Ok (VDict (before ++ (k, v) :: after), h)))
         = load_allowlist_objects (Loaded (Ok (VDict (before ++ after), h))))
  /\ (forall paths regexes patterns,
         exists p r h',
           load_allowlist_objects
             (Loaded (Ok (objects_of paths regexes patterns)))
           = Ok (p, r, h')
           /\ contents h' p = map VStr (or_empty paths)
           /\ contents h' r
              = map VStr (or_empty regexes ++ or_empty patterns)
           /\ load_allowlist
                (Present (Ok (Some [("paths", paths); ("regexes", regexes);
                                    ("patterns", patterns)])))
              = Ok (or_empty paths, or_empty regexes ++ or_empty patterns)).
Proof.
  assert (Hok : forall items h ext,
            (forall v, chosen h items "regexes" = Some v ->
                       exists l, v = VList l) ->
            extension h items = Ok ext ->
            exists p l h',
              load_allowlist_objects (Loaded (Ok (VDict items, h)))
              = Ok (p, VList l, h')
              /\ items_at h' l = items_at h l ++ ext
              /\ (forall l', l' <> l -> items_at h' l' = items_at h l')
              /\ (forall v,
                     chosen h items "regexes" = Some v -> v = VList l)
              /\ (chosen h items "regexes" = None -> items_at h l = [])
              /\ (forall v, chosen h items "paths" = Some v -> p = v)
              /\ (chosen h items "paths" = None ->
                  exists a, p = VList a /\ a <> l /\ items_at h a = [])).
  { intros items h ext Hlist Hext.
    destruct (load_dict_result items h Hlist)
      as (p & l & h3 & Hload & H3 & Hr & Hr' & Hp & Hp').
    rewrite Hext in Hload. cbn [rbind] in Hload.
    exists p, l, ((l, items_at h l ++ ext) :: h3).
    split; [exact Hload | split; [| split; [| now repeat split]]].
    - now rewrite items_at_cons, Nat.eqb_refl.
    - intros l' Hl'. rewrite items_at_cons.
      destruct (l =? l') eqn:Heq; [| apply H3].
      apply Nat.eqb_eq in Heq. congruence. }
  split; [| split; [| split; [| split; [| split]]]].
  - intros data h Hdata. split; [now apply load_not_mapping |].
    intros Hfalse. rewrite (load_falsy data h Hfalse).
    destruct (Hok [] h [] ltac:(discriminate) eq_refl)
      as (p & l & h' & Hload & Hl & _ & _ & Hr & _ & Hp).
    destruct (Hp eq_refl) as (a & -> & Ha & Hempty).
    exists (VList a), (VList l), h'. split; [exact Hload |].
    cbn [contents]. rewrite Hl, (Hr eq_refl). split; [| reflexivity].
    destruct (load_dict_result [] h ltac:(discriminate))
      as (p0 & l0 & h3 & Hload0 & H3 & _).
    cbn [extension chosen py_get rbind] in Hload0.
    rewrite Hload in Hload0. injection Hload0 as <- <- ->.
    rewrite items_at_cons.
    destruct (l =? a) eqn:Heq; [apply Nat.eqb_eq in Heq; congruence |].
    now rewrite H3.
  - exact load_regexes_not_list.
  - intros items h Hlist. split; [| intros ext; now apply Hok].
    intros e Hext. split.
    + unfold extension in Hext.
      destruct (chosen h items "patterns") as [v |]; [| discriminate].
      destruct v; simpl in Hext; congruence.
    + destruct (load_dict_result items h Hlist) as (p & l & h3 & Hload & _).
      now rewrite Hload, Hext.
  - intros items h l ext Hpaths Hregexes Hext.
    destruct (Hok items h ext)
      as (p & l0 & h' & Hload & Hl & _ & Hr & _ & Hp & _);
      [| exact Hext |].
    + intros v Hv. rewrite Hregexes in Hv. injection Hv as <-. now exists l.
    + injection (Hr _ Hregexes) as <-. rewrite (Hp _ Hpaths) in Hload.
      now exists h'.
  - intros before k v after h Hpaths Hregexes Hpatterns.
    rewrite !load_dict. unfold entries_under, chosen.
    now rewrite !py_get_other by assumption.
  - intros paths regexes patterns.
    destruct paths as [[| a1 l1] |], regexes as [[| a2 l2] |],
      patterns as [[| a3 l3] |];
      do 3 eexists; (split; [reflexivity |]); cbn;
      rewrite ?app_nil_r, ?map_app; repeat split; reflexivity.
Qed.

Lemma load_allowlist_shares_lists_witness :
  exists h',
    load_allowlist_objects (Loaded (Ok aliased_document))
    = Ok (VList 0, VList 0, h')
    /\ contents h' (VList 0) = [VStr "docs"; VStr "example\.com"].
Proof.
  apply (proj1 (proj2 (proj2 (proj2 load_allowlist_shares_lists)))
           [(VStr "paths", VList 0); (VStr "regexes", VList 0);
            (VStr "patterns", VList 1)]
           (snd aliased_document) 0 [VStr "example\.com"]); reflexivity.
Defined.

(** ** The path filter *)

Section PathFilter.
Variable re_search : string -> string -> result bool.
Variable path_match : Path -> string -> result bool.

Lemma ignore_default rel allow_paths :
  default_excluded rel = true ->
  should_ignore_path path_match rel allow_paths = Ok true.
Proof.
  unfold default_excluded, has_excluded_part, should_ignore_path.
  destruct (existsb _ DEFAULT_IGNORED_DIRECTORIES); [reflexivity |].
  simpl. now intros ->.
Qed.

Lemma ignore_user rel allow_paths :
  default_excluded rel = false ->
  should_ignore_path path_match rel allow_paths
  = matches_user_path path_match rel (Text.join_slash rel) allow_paths.
Proof.
  unfold default_excluded, has_excluded_part, should_ignore_path.
  destruct (existsb _ DEFAULT_IGNORED_DIRECTORIES); [discriminate |].
  simpl. now intros ->.
Qed.

Lemma matches_user_path_answers rel posix allow_paths :
  Forall (answers path_match) allow_paths ->
  matches_user_path path_match rel posix allow_paths
  = Ok (existsb
          (fun entry =>
             holds (path_match rel entry)
             || Text.startswith posix (Text.rstrip_slash entry))
          allow_paths).
Proof.
  induction 1 as [| entry rest Hentry _ IH]; simpl; [reflexivity |].
  destruct (Hentry rel) as [m ->]; simpl.
  destruct m; simpl; [reflexivity |].
  destruct (Text.startswith posix (Text.rstrip_slash entry)); simpl;
    [reflexivity | exact IH].
Qed.

Lemma scan_entries_skip root allow_paths rules before rel kind after issues
    b :
  should_ignore_path path_match rel allow_paths = Ok b ->
  b = true \/ kind = IsDir ->
  outcome (scan_entries re_search path_match root allow_paths rules
             (before ++ (rel, kind) :: after) issues)
  = outcome (scan_entries re_search path_match root allow_paths rules
               (before ++ after) issues).
Proof.
  intros Hb Hskip. revert issues.
  induction before as [| [rel0 kind0] rest IH]; intros issues.
  - cbn [app]. rewrite scan_entries_step, Hb. cbn [rbind].
    destruct Hskip as [-> | ->]; [now destruct kind | reflexivity].
  - cbn [app]. rewrite !scan_entries_step.
    destruct (should_ignore_path path_match rel0 allow_paths) as [[|] | e0];
      cbn [rbind]; try reflexivity; destruct kind0 as [| read_text];
      try apply IH.
    destruct (screen re_search rules _ []); cbn [rbind];
      [apply IH | reflexivity].
Qed.

Lemma ignored_never_read root allow_paths rules entries issues rel :
  should_ignore_path path_match rel allow_paths = Ok true ->
  ~ In (Read rel)
      (trace (scan_entries re_search path_match root allow_paths rules
                entries issues)).
Proof.
  intros Hx. revert issues.
  induction entries as [| [rel0 kind] rest IH]; intros issues; [intros [] |].
  cbn [scan_entries]. rewrite trace_bind. cbn [tell trace outcome fst snd].
  intros [H | Hin]; [discriminate |].
  destruct kind as [| read_text]; rewrite trace_bind, outcome_lift in Hin;
    cbn [lift trace fst app] in Hin;
    destruct (should_ignore_path path_match rel0 allow_paths)
      as [[|] | e] eqn:Hi;
    try contradiction; try (now apply IH in Hin).
  - destruct rel0; now apply IH in Hin.
  - rewrite trace_bind, scan_file_trace in Hin.
    destruct Hin as [H | Hin].
    + injection H as ->. rewrite Hx in Hi. discriminate.
    + destruct (outcome (scan_file re_search (root ++ rel0) rel0 read_text
                           rules)); [now apply IH in Hin | contradiction].
Qed.

Lemma scan_entries_raises_on_path_rule root entry rest rules entries issues
    e :
  (forall rel, path_match rel entry = Raise e) ->
  existsb (fun x => negb (default_excluded (fst x))) entries = true ->
  outcome (scan_entries re_search path_match root (entry :: rest) rules
             entries issues) = Raise e.
Proof.
  intros Hraise. revert issues.
  induction entries as [| [rel kind] others IH]; intros issues;
    [discriminate |].
  cbn [existsb fst]. rewrite scan_entries_step.
  destruct (default_excluded rel) eqn:Hd; cbn [negb orb].
  - intros Hothers. rewrite (ignore_default rel _ Hd). cbn [rbind].
    destruct kind; now apply IH.
  - intros _. rewrite (ignore_user rel _ Hd). cbn [matches_user_path].
    now rewrite Hraise.
Qed.

End PathFilter.

(** X2.  A file whose name is in the built-in lockfile set is ignored
    whatever the path rules are, even rules on which matching raises: it
    is never read, and the outcome of the traversal is the one without
    it. *)
Theorem lockfiles_are_skipped
    (re_search : string -> string -> result bool)
    (path_match : Path -> string -> result bool)
    (root : Path) (allow_paths rules : list string) (rel : Path) :
  Text.mem (path_name rel) DEFAULT_IGNORED_FILES = true ->
  should_ignore_path path_match rel allow_paths = Ok true
  /\ (forall before kind after issues,
         outcome (scan_entries re_search path_match root allow_paths rules
                    (before ++ (rel, kind) :: after) issues)
         = outcome (scan_entries re_search path_match root allow_paths rules
                      (before ++ after) issues))
  /\ (forall entries issues,
         ~ In (Read rel)
             (trace (scan_entries re_search path_match root allow_paths rules
                       entries issues))).
Proof.
  intros Hname.
  assert (Hi : should_ignore_path path_match rel allow_paths = Ok true).
  { apply ignore_default. unfold default_excluded. rewrite Hname.
    apply orb_true_r. }
  split; [exact Hi | split].
  - intros before kind after issues.
    apply scan_entries_skip with true; [exact Hi | now left].
  - intros entries issues. now apply ignored_never_read.
Qed.

Lemma lockfiles_are_skipped_witness :
  ~ In (Read ["web"; "yarn.lock"])
      (trace (scan_entries py_re_search py_path_match sample_root [""] ["("]
                (rglob lock_tree) [])).
Proof.
  apply (lockfiles_are_skipped py_re_search py_path_match sample_root [""]
           ["("] ["web"; "yarn.lock"]).
  reflexivity.
Defined.

(** X3.  An entry on which the path filter answers that it is ignored has
    no effect on a scan, whatever the file contains and whatever the text
    rules are: it is never read, and the outcome of the traversal is the
    one without it.  A directory entry has no effect either way. *)
Theorem ignored_entries_are_transparent
    (re_search : string -> string -> result bool)
    (path_match : Path -> string -> result bool)
    (root : Path) (allow_paths rules : list string) (rel : Path)
    (kind : entry) (b : bool) :
  should_ignore_path path_match rel allow_paths = Ok b ->
  b = true \/ kind = IsDir ->
  (forall before after issues,
      outcome (scan_entries re_search path_match root allow_paths rules
                 (before ++ (rel, kind) :: after) issues)
      = outcome (scan_entries re_search path_match root allow_paths rules
                   (before ++ after) issues))
  /\ (b = true ->
      forall entries issues,
        ~ In (Read rel)
            (trace (scan_entries re_search path_match root allow_paths rules
                      entries issues))).
Proof.
  intros Hb Hskip. split.
  - intros before after issues. now apply scan_entries_skip with b.
  - intros -> entries issues. now apply ignored_never_read.
Qed.

Lemma ignored_entries_are_transparent_witness :
  outcome (scan_entries py_re_search py_path_match sample_root ["*.md"] []
             ([] ++ (["README.md"], IsFile (Text contact_line))
                 :: [(["src"], IsDir)]) [])
  = outcome (scan_entries py_re_search py_path_match sample_root ["*.md"] []
               ([] ++ [(["src"], IsDir)]) []).
Proof.
  apply (ignored_entries_are_transparent py_re_search py_path_match
           sample_root ["*.md"] [] ["README.md"]
           (IsFile (Text contact_line)) true).
  - vm_compute. reflexivity.
  - left. reflexivity.
Defined.

(** X4.  When matching answers on every path rule, a path is ignored
    exactly when it has a component in the built-in directory set, or its
    name is in the built-in file set, or some rule matches it as a glob,
    or some rule, with its trailing slashes removed, is a prefix of the
    text of the path.  The prefix is one of characters: the rule [doc]
    ignores [docs/guide.md]. *)
Theorem path_filter_decision
    (path_match : Path -> string -> result bool)
    (rel : Path) (allow_paths : list string) :
  Forall (answers path_match) allow_paths ->
  should_ignore_path path_match rel allow_paths
  = Ok (default_excluded rel
        || existsb
             (fun entry =>
                holds (path_match rel entry)
                || Text.startswith (Text.join_slash rel)
                     (Text.rstrip_slash entry))
             allow_paths).
Proof.
  intros Hanswers.
  destruct (default_excluded rel) eqn:Hd.
  - now apply ignore_default.
  - rewrite (ignore_user path_match rel allow_paths Hd).
    now apply matches_user_path_answers.
Qed.

Lemma path_filter_decision_witness :
  holds (py_path_match ["docs"; "guide.md"] "doc/") = false
  /\ should_ignore_path py_path_match ["docs"; "guide.md"] ["doc/"]
     = Ok true.
Proof.
  split; [reflexivity |].
  rewrite (path_filter_decision py_path_match ["docs"; "guide.md"] ["doc/"]).
  - reflexivity.
  - constructor; [| constructor]. apply py_answers. discriminate.
Defined.

(** X5.  A path rule on which matching raises, standing first, makes the
    scan raise as soon as the tree has an entry, file or directory, that
    the built-in sets do not exclude; the run then ends with status 2 and
    writes no report. *)
Theorem failing_path_rule_aborts
    (re_search : string -> string -> result bool)
    (path_match : Path -> string -> result bool)
    (w : world) (entry : string) (rest rules : list string) (e : exn) :
  (forall rel, path_match rel entry = Raise e) ->
  existsb (fun x => negb (default_excluded (fst x))) (rglob (tree w)) = true ->
  outcome (scan_repository re_search path_match (arg_root w) (tree w)
             (entry :: rest) rules) = Raise e
  /\ (load_allowlist (arg_allowlist w) = Ok (entry :: rest, rules) ->
      outcome (main re_search path_match w) = Ok 2%Z
      /\ In (Print (RuntimeErrorMessage e))
           (trace (main re_search path_match w))
      /\ forall target r,
           ~ In (WriteReport target r) (trace (main re_search path_match w))).
Proof.
  intros Hraise Hentry.
  assert (Hscan :
    outcome (scan_repository re_search path_match (arg_root w) (tree w)
               (entry :: rest) rules) = Raise e)
    by (now apply scan_entries_raises_on_path_rule).
  split; [exact Hscan |].
  intros Hload.
  rewrite (main_scan_fails re_search path_match w _ _ e Hload Hscan).
  split; [reflexivity | split].
  - simpl. apply in_or_app. right. now left.
  - intros target r Hw. simpl in Hw. apply in_app_or in Hw.
    destruct Hw as [Hw | [Hw | []]]; [| discriminate].
    apply scan_entries_events in Hw.
    destruct Hw as [rel0 [_ [H | H]]]; discriminate.
Qed.

Lemma failing_path_rule_aborts_witness :
  outcome (scan_repository py_re_search py_path_match
             (arg_root (sample_world Absent plain_tree))
             (tree (sample_world Absent plain_tree)) ["" ] [])
  = Raise ValueError.
Proof.
  assert (Hraise : forall rel, py_path_match rel "" = Raise ValueError)
    by (intros rel; reflexivity).
  assert (Hentry :
    existsb (fun x => negb (default_excluded (fst x)))
      (rglob (tree (sample_world Absent plain_tree))) = true)
    by (vm_compute; reflexivity).
  exact (proj1 (failing_path_rule_aborts py_re_search py_path_match
                  (sample_world Absent plain_tree) "" [] [] ValueError
                  Hraise Hentry)).
Defined.

(** ** The text rules *)

Section TextRules.
Variable re_search : string -> string -> result bool.
Variable path_match : Path -> string -> result bool.

Lemma is_allowed_match_stops text before rule after :
  Forall (fun p => re_search p text = Ok false) before ->
  is_allowed_match re_search text (before ++ rule :: after)
  = (found <- re_search rule text ;;
     if found then Ok true else is_allowed_match re_search text after).
Proof.
  induction 1 as [| p rest Hp _ IH]; simpl; [reflexivity |].
  rewrite Hp. simpl. exact IH.
Qed.

Lemma is_allowed_match_cases text rules :
  (Forall (fun p => re_search p text = Ok false) rules
   /\ is_allowed_match re_search text rules = Ok false)
  \/ exists before rule after,
       rules = before ++ rule :: after
       /\ Forall (fun p => re_search p text = Ok false) before
       /\ ((re_search rule text = Ok true
            /\ is_allowed_match re_search text rules = Ok true)
           \/ exists e,
                re_search rule text = Raise e
                /\ is_allowed_match re_search text rules = Raise e).
Proof.
  induction rules as [| p rest IH]; simpl.
  - left. split; [constructor | reflexivity].
  - destruct (re_search p text) as [[|] | e] eqn:Hp; simpl.
    + right. exists [], p, rest. repeat split; [constructor |].
      left. now split.
    + destruct IH as [[Hall Hres] | (before & rule & after & -> & Hb & Hr)].
      * left. split; [now constructor | exact Hres].
      * right. exists (p :: before), rule, after.
        repeat split; [now constructor | exact Hr].
    + right. exists [], p, rest. repeat split; [constructor |].
      right. exists e. now split.
Qed.

Lemma decide_first_rule rule rest c :
  (forall text, re_search rule text = Ok true) ->
  decide re_search (rule :: rest) c = Ok true.
Proof.
  intros Hall. unfold decide. simpl. now rewrite Hall.
Qed.

Lemma existsb_permutation {A : Type} (f : A -> bool) l l' :
  Permutation l l' -> existsb f l = existsb f l'.
Proof.
  induction 1 as [| x l l' _ IH | x y l | l l' l'' _ IH1 _ IH2]; simpl.
  - reflexivity.
  - now rewrite IH.
  - now destruct (f x), (f y).
  - congruence.
Qed.

End TextRules.

(** X6.  [is_allowed_match] tries the rules in order and stops at the first
    one that is found or that raises: it returns true exactly when some
    rule is found and every rule before it is not found, it raises
    exactly when some rule raises and every rule before it is not found,
    and the rules after that one are never tried. *)
Theorem is_allowed_match_short_circuits
    (re_search : string -> string -> result bool)
    (text : string) (rules : list string) :
  (is_allowed_match re_search text rules = Ok true <->
   exists before rule after,
     rules = before ++ rule :: after
     /\ Forall (fun p => re_search p text = Ok false) before
     /\ re_search rule text = Ok true)
  /\ (forall e,
         is_allowed_match re_search text rules = Raise e <->
         exists before rule after,
           rules = before ++ rule :: after
           /\ Forall (fun p => re_search p text = Ok false) before
           /\ re_search rule text = Raise e)
  /\ (is_allowed_match re_search text rules = Ok false <->
      Forall (fun p => re_search p text = Ok false) rules).
Proof.
  assert (Hfwd : forall before rule after,
            rules = before ++ rule :: after ->
            Forall (fun p => re_search p text = Ok false) before ->
            is_allowed_match re_search text rules
            = (found <- re_search rule text ;;
               if found then Ok true
               else is_allowed_match re_search text after)).
  { intros before rule after -> Hb.
    now apply is_allowed_match_stops. }
  assert (Hnone : Forall (fun p => re_search p text = Ok false) rules ->
                  is_allowed_match re_search text rules = Ok false).
  { clear Hfwd. induction 1 as [| p rest Hp _ IH]; simpl; [reflexivity |].
    rewrite Hp. simpl. exact IH. }
  pose proof (is_allowed_match_cases re_search text rules) as Hcases.
  split; [| split].
  - split.
    + intros Htrue.
      destruct Hcases
        as [[_ H] | (b & r & a & Heq & Hb & [[Hr _] | [e [_ H]]])];
        [congruence | | congruence].
      now exists b, r, a.
    + intros (b & r & a & Heq & Hb & Hr).
      rewrite (Hfwd b r a Heq Hb), Hr. reflexivity.
  - intros e. split.
    + intros Hraise.
      destruct Hcases
        as [[_ H] | (b & r & a & Heq & Hb & [[_ H] | [e' [Hr H]]])];
        [congruence | congruence |].
      exists b, r, a. repeat split; [exact Heq | exact Hb |]. congruence.
    + intros (b & r & a & Heq & Hb & Hr).
      rewrite (Hfwd b r a Heq Hb), Hr. reflexivity.
  - split; [| exact Hnone].
    intros Hfalse.
    destruct Hcases as [[H _] | (b & r & a & _ & _ & [[_ H] | [e [_ H]]])];
      [exact H | congruence | congruence].
Qed.

Lemma is_allowed_match_short_circuits_witness :
  is_allowed_match py_re_search "alice@example.com"
    (["555"] ++ "example\.com" :: ["("; "["])
  = Ok true.
Proof.
  apply (is_allowed_match_short_circuits py_re_search "alice@example.com"
           (["555"] ++ "example\.com" :: ["("; "["])).
  exists ["555"], "example\.com", ["("; "["].
  repeat split.
  constructor; [reflexivity | constructor].
Defined.

(** X7.  The text rules are consulted for candidates only: on a tree
    whose files hold no match of any pattern, a scan returns the empty
    list for every list of text rules, rules that do not compile
    included, as long as matching answers on the path rules. *)
Theorem rules_wait_for_candidates
    (re_search : string -> string -> result bool)
    (path_match : Path -> string -> result bool)
    (root : Path) (t : root_state) (allow_paths rules : list string) :
  repo_candidates path_match root allow_paths (rglob t) = [] ->
  Forall (answers path_match) allow_paths ->
  outcome (scan_repository re_search path_match root t allow_paths rules)
  = Ok [].
Proof.
  intros Hnone Hanswers.
  destruct (scan_entries_defined re_search path_match root allow_paths rules
              (rglob t) []) as [out Hout].
  - intros e He. split; [now apply ignore_answers |].
    intros c Hc. exfalso.
    assert (Hin : In c (repo_candidates path_match root allow_paths
                          (rglob t)))
      by (apply in_flat_map; now exists e).
    rewrite Hnone in Hin. exact Hin.
  - unfold scan_repository. rewrite Hout. f_equal.
    apply scan_entries_sound in Hout. rewrite Hnone in Hout. exact Hout.
Qed.

Lemma rules_wait_for_candidates_witness :
  outcome (scan_repository py_re_search py_path_match sample_root plain_tree
             ["docs"] ["("; "*"])
  = Ok [].
Proof.
  apply (rules_wait_for_candidates py_re_search py_path_match sample_root
           plain_tree ["docs"] ["("; "*"]).
  - vm_compute. reflexivity.
  - constructor; [| constructor]. apply py_answers. discriminate.
Defined.

(** X8.  A first text rule that is found in every text, such as the empty
    pattern, suppresses every candidate: the scan returns the empty list,
    and the rules after it are never tried. *)
Theorem catch_all_rule_silences
    (re_search : string -> string -> result bool)
    (path_match : Path -> string -> result bool)
    (root : Path) (t : root_state) (allow_paths : list string)
    (rule : string) (rest : list string) :
  (forall text, re_search rule text = Ok true) ->
  Forall (answers path_match) allow_paths ->
  outcome (scan_repository re_search path_match root t allow_paths
             (rule :: rest))
  = Ok [].
Proof.
  intros Hall Hanswers.
  destruct (scan_entries_defined re_search path_match root allow_paths
              (rule :: rest) (rglob t) []) as [out Hout].
  - intros e He. split; [now apply ignore_answers |].
    intros c Hc. exists true. now apply decide_first_rule.
  - unfold scan_repository. rewrite Hout. f_equal.
    apply scan_entries_sound in Hout. rewrite Hout. simpl.
    assert (Hnone : forall cs, survivors re_search (rule :: rest) cs = []).
    { induction cs as [| c cs IH]; [reflexivity |].
      unfold survivors in *. simpl. unfold hit at 1.
      rewrite (Hall (c_match c)). simpl. exact IH. }
    now rewrite Hnone.
Qed.

Lemma empty_pattern_found_everywhere text : py_re_search "" text = Ok true.
Proof.
  unfold py_re_search. simpl. unfold Re.search.
  now destruct (Text.chars text).
Qed.

Lemma catch_all_rule_silences_witness :
  outcome (scan_repository py_re_search py_path_match sample_root sample_tree
             [] ("" :: ["("]))
  = Ok [].
Proof.
  apply (catch_all_rule_silences py_re_search py_path_match sample_root
           sample_tree [] "" ["("]).
  - exact empty_pattern_found_everywhere.
  - constructor.
Defined.

(** X9.  Text rules that compile act as a set: a scan with a permutation
    of the rules returns the same findings. *)
Theorem text_rules_order_is_irrelevant
    (re_search : string -> string -> result bool)
    (path_match : Path -> string -> result bool)
    (root : Path) (t : root_state) (allow_paths rules rules' : list string) :
  Permutation rules rules' ->
  Forall (compiles re_search) rules ->
  Forall (answers path_match) allow_paths ->
  outcome (scan_repository re_search path_match root t allow_paths rules')
  = outcome (scan_repository re_search path_match root t allow_paths rules)
  /\ exists found,
       outcome (scan_repository re_search path_match root t allow_paths rules)
       = Ok found.
Proof.
  intros Hperm Hrules Hanswers.
  assert (Hrules' : Forall (compiles re_search) rules').
  { apply Forall_forall. intros p Hp.
    apply (proj1 (Forall_forall _ _) Hrules).
    apply Permutation_in with rules'; [now apply Permutation_sym | exact Hp]. }
  unfold scan_repository.
  rewrite !scan_entries_total by assumption.
  split; [| now eexists].
  do 3 f_equal. unfold survivors. apply filter_ext. intros c.
  unfold suppressed. f_equal.
  apply existsb_permutation. now apply Permutation_sym.
Qed.

Lemma text_rules_order_is_irrelevant_witness :
  outcome (scan_repository py_re_search py_path_match sample_root sample_tree
             [] ["\d{4}"; "example\.com"])
  = outcome (scan_repository py_re_search py_path_match sample_root
               sample_tree [] ["example\.com"; "\d{4}"]).
Proof.
  apply (text_rules_order_is_irrelevant py_re_search py_path_match
           sample_root sample_tree [] ["example\.com"; "\d{4}"]
           ["\d{4}"; "example\.com"]).
  - apply perm_swap.
  - constructor; [| constructor; [| constructor]];
      eapply py_compiles; reflexivity.
  - constructor.
Defined.

(** ** The findings of one file *)

Lemma strongly_sorted_app (l1 l2 : list nat) :
  StronglySorted le l1 ->
  StronglySorted le l2 ->
  (forall x y, In x l1 -> In y l2 -> x <= y) ->
  StronglySorted le (l1 ++ l2).
Proof.
  intros H1 H2 Hle.
  induction H1 as [| x l1 Hs IH Hx]; simpl; [exact H2 |].
  constructor.
  - apply IH. intros a b Ha Hb. apply Hle; [now right | exact Hb].
  - apply Forall_app. split; [exact Hx |].
    apply Forall_forall. intros y Hy. apply Hle; [now left | exact Hy].
Qed.

Lemma strongly_sorted_constant (n : nat) (l : list nat) :
  Forall (fun x => x = n) l -> StronglySorted le l.
Proof.
  induction 1 as [| x l Hx Hl IH]; constructor; [exact IH |].
  subst x. apply Forall_impl with (2 := Hl). intros a ->. reflexivity.
Qed.

Lemma strongly_sorted_filter {A : Type} (key : A -> nat) (keep : A -> bool)
    (l : list A) :
  StronglySorted le (map key l) ->
  StronglySorted le (map key (filter keep l)).
Proof.
  induction l as [| a l IH]; simpl; [constructor |].
  intros Hs. apply StronglySorted_inv in Hs. destruct Hs as [Hs Ha].
  destruct (keep a); simpl; [| now apply IH].
  constructor; [now apply IH |].
  apply Forall_forall. intros y Hy.
  apply in_map_iff in Hy. destruct Hy as [b [<- Hb]].
  apply filter_In in Hb. destruct Hb as [Hb _].
  apply (proj1 (Forall_forall _ _) Ha). now apply in_map.
Qed.

Lemma lines_candidates_sorted file_path start lines :
  StronglySorted le (map c_line_no (lines_candidates file_path start lines)).
Proof.
  revert start.
  induction lines as [| line rest IH]; intros start; [constructor |].
  cbn [lines_candidates]. rewrite map_app.
  apply strongly_sorted_app.
  - apply strongly_sorted_constant with start.
    apply Forall_forall. intros n Hn.
    apply in_map_iff in Hn. destruct Hn as [c [<- Hc]].
    unfold line_candidates in Hc. apply in_flat_map in Hc.
    destruct Hc as [kp [_ Hc]]. unfold match_candidates in Hc.
    apply in_map_iff in Hc. now destruct Hc as [g [<- _]].
  - apply IH.
  - intros x y Hx Hy.
    apply in_map_iff in Hx. destruct Hx as [c [<- Hc]].
    apply in_map_iff in Hy. destruct Hy as [d [<- Hd]].
    assert (Hc' : In c (lines_candidates file_path start [line]))
      by (cbn [lines_candidates]; now rewrite app_nil_r).
    apply lines_candidates_origin in Hc'. destruct Hc' as (_ & _ & Hn & _).
    apply lines_candidates_origin in Hd. destruct Hd as (_ & Hd & _).
    assert (c_line_no c - start < 1).
    { apply (proj1 (nth_error_Some [line] (c_line_no c - start))).
      rewrite Hn. discriminate. }
    assert (Hc'' : In c (lines_candidates file_path start (line :: rest)))
      by (cbn [lines_candidates]; apply in_or_app; now left).
    apply lines_candidates_origin in Hc''. lia.
Qed.

(** X10.  The findings of a file come in the order of its lines.  Each one
    carries the number of a line of the file, counted from 1, the trimmed
    text of that line as its context and the path of the file. *)
Theorem findings_follow_the_lines
    (re_search : string -> string -> result bool)
    (file_path rel : Path) (content : string) (rules : list string)
    (found : list finding) :
  outcome (scan_file re_search file_path rel (Text content) rules)
  = Ok found ->
  StronglySorted le (map f_line found)
  /\ forall f,
       In f found ->
       1 <= f_line f <= List.length (Text.splitlines content)
       /\ f_file f = path_str file_path
       /\ exists line,
            nth_error (Text.splitlines content) (f_line f - 1) = Some line
            /\ f_context f = Text.strip line.
Proof.
  rewrite scan_file_outcome. intros Hfound.
  apply screen_sound in Hfound. simpl in Hfound. subst found.
  split.
  - rewrite map_map.
    change (fun c => f_line (finding_of c)) with c_line_no.
    apply strongly_sorted_filter. apply lines_candidates_sorted.
  - intros f Hf. apply in_map_iff in Hf. destruct Hf as [c [<- Hc]].
    apply filter_In in Hc. destruct Hc as [Hc _].
    apply lines_candidates_origin in Hc.
    destruct Hc as (Hfile & Hlo & Hnth & _). simpl.
    assert (c_line_no c - 1 < List.length (Text.splitlines content)).
    { apply nth_error_Some. rewrite Hnth. discriminate. }
    split; [lia | split; [now rewrite Hfile |]].
    now exists (c_line c).
Qed.

Lemma findings_follow_the_lines_witness :
  StronglySorted le
    (map f_line [finding_of mail_candidate; finding_of call_candidate]).
Proof.
  apply (findings_follow_the_lines py_re_search ["repo"; "contacts.txt"]
           ["contacts.txt"] two_lines []
           [finding_of mail_candidate; finding_of call_candidate]).
  vm_compute. reflexivity.
Defined.

(** ** Normalization *)

Section Strip.
Variable p : ascii -> bool.

Lemma drop_while_head l :
  match Text.drop_while p l with
  | [] => True
  | c :: _ => p c = false
  end.
Proof.
  induction l as [| c t IH]; simpl; [exact I |].
  destruct (p c) eqn:Hc; [exact IH | exact Hc].
Qed.

Lemma drop_while_fixed l :
  match l with [] => True | c :: _ => p c = false end ->
  Text.drop_while p l = l.
Proof.
  destruct l as [| c t]; simpl; [reflexivity |]. now intros ->.
Qed.

Lemma drop_while_suffix l :
  exists dropped, l = dropped ++ Text.drop_while p l.
Proof.
  induction l as [| c t [dropped IH]]; simpl; [now exists [] |].
  destruct (p c).
  - exists (c :: dropped). simpl. now f_equal.
  - now exists [].
Qed.

End Strip.

Lemma strip_chars_ends l :
  match Text.strip_chars l with
  | [] => True
  | c :: _ => Text.is_space c = false
  end
  /\ match rev (Text.strip_chars l) with
     | [] => True
     | c :: _ => Text.is_space c = false
     end.
Proof.
  unfold Text.strip_chars.
  set (a := Text.drop_while Text.is_space l).
  set (b := Text.drop_while Text.is_space (rev a)).
  split.
  - destruct (drop_while_suffix Text.is_space (rev a)) as [dropped Hd].
    fold b in Hd.
    assert (Ha : a = rev b ++ rev dropped)
      by (rewrite <- rev_app_distr, <- Hd; now rewrite rev_involutive).
    pose proof (drop_while_head Text.is_space l) as Hhead. fold a in Hhead.
    destruct (rev b) as [| c t]; [exact I |].
    rewrite Ha in Hhead. exact Hhead.
  - rewrite rev_involutive. apply drop_while_head.
Qed.

Lemma strip_chars_idempotent l :
  Text.strip_chars (Text.strip_chars l) = Text.strip_chars l.
Proof.
  destruct (strip_chars_ends l) as [Hfirst Hlast].
  set (s := Text.strip_chars l) in *.
  unfold Text.strip_chars at 1.
  rewrite (drop_while_fixed Text.is_space s Hfirst).
  rewrite (drop_while_fixed Text.is_space (rev s) Hlast).
  apply rev_involutive.
Qed.

Lemma strip_idempotent s : Text.strip (Text.strip s) = Text.strip s.
Proof.
  unfold Text.strip, Text.chars, Text.text.
  rewrite list_ascii_of_string_of_list_ascii.
  now rewrite strip_chars_idempotent.
Qed.

(** X11.  [normalize_match] is idempotent, and what it returns neither
    begins nor ends with white space; the match and the context of every
    finding of a scan are left unchanged by it, so comparing them with
    allowlist entries does not depend on surrounding blanks. *)
Theorem normalization_is_stable :
  (forall text,
      normalize_match (normalize_match text) = normalize_match text)
  /\ (forall text,
         match Text.chars (normalize_match text) with
         | [] => True
         | c :: _ => Text.is_space c = false
         end
         /\ match rev (Text.chars (normalize_match text)) with
            | [] => True
            | c :: _ => Text.is_space c = false
            end)
  /\ (forall re_search path_match root t allow_paths rules found f,
         outcome (scan_repository re_search path_match root t allow_paths
                    rules) = Ok found ->
         In f found ->
         normalize_match (f_match f) = f_match f
         /\ normalize_match (f_context f) = f_context f).
Proof.
  split; [exact strip_idempotent | split].
  - intros text. unfold normalize_match, Text.strip, Text.chars, Text.text.
    rewrite list_ascii_of_string_of_list_ascii.
    apply strip_chars_ends.
  - intros re_search path_match root t allow_paths rules found f Hfound Hf.
    apply scan_entries_sound in Hfound. simpl in Hfound. subst found.
    apply in_map_iff in Hf. destruct Hf as [c [<- Hc]].
    apply filter_In in Hc. destruct Hc as [Hc _].
    apply repo_candidates_origin in Hc.
    destruct Hc as (_ & _ & _ & _ & _ & _ & _ & pattern & g & _ & _ & Hm).
    simpl. rewrite Hm. unfold normalize_match.
    split; apply strip_idempotent.
Qed.

Lemma normalization_is_stable_witness :
  normalize_match (f_match phone_finding) = f_match phone_finding
  /\ normalize_match (f_context phone_finding) = f_context phone_finding.
Proof.
  refine (proj2 (proj2 normalization_is_stable)
            py_re_search py_path_match sample_root contacts_tree [] []
            [email_finding; phone_finding] phone_finding _ _).
  - vm_compute. reflexivity.
  - right. left. reflexivity.
Defined.

(** ** The traversal, entry by entry *)

Lemma node_induction (P : node -> Prop) :
  (forall name c, P (File name c)) ->
  (forall name children, Forall P children -> P (Dir name children)) ->
  forall n, P n.
Proof.
  intros Hfile Hdir. fix IH 1. intros [name c | name children].
  - apply Hfile.
  - apply Hdir. induction children as [| child rest IHrest];
      constructor; [apply IH | exact IHrest].
Qed.

Lemma listing_nonempty here children e :
  In e (listing here children) -> fst e <> [].
Proof.
  unfold listing. rewrite in_map_iff. intros [c [<- _]]. simpl.
  now destruct here.
Qed.

Lemma rglob_node_nonempty n :
  forall prefix e, In e (rglob_node prefix n) -> fst e <> [].
Proof.
  induction n as [name c | name children IH] using node_induction;
    intros prefix e; simpl; [tauto |].
  rewrite in_app_iff, in_flat_map.
  intros [Hhere | [child [Hchild He]]].
  - now apply listing_nonempty in Hhere.
  - exact (proj1 (Forall_forall _ _) IH child Hchild _ e He).
Qed.

Lemma rglob_node_length n :
  forall prefix, S (List.length (rglob_node prefix n)) = node_count n.
Proof.
  induction n as [name c | name children IH] using node_induction;
    intros prefix; simpl; [reflexivity |].
  f_equal. rewrite length_app. unfold listing. rewrite length_map.
  generalize (prefix ++ [name]). intros here.
  induction IH as [| child rest Hchild _ IHrest]; simpl; [reflexivity |].
  rewrite length_app, <- (Hchild here). lia.
Qed.

Lemma rglob_length t : List.length (rglob t) = tree_count t.
Proof.
  destruct t as [| | | children]; simpl; try reflexivity.
  rewrite length_app. unfold listing. rewrite length_map.
  induction children as [| child rest IH]; simpl; [reflexivity |].
  rewrite length_app, <- (rglob_node_length child []). lia.
Qed.

Lemma scan_entries_trace re_search path_match root allow_paths rules entries
    issues out :
  outcome (scan_entries re_search path_match root allow_paths rules entries
             issues) = Ok out ->
  trace (scan_entries re_search path_match root allow_paths rules entries
           issues)
  = expected_trace path_match allow_paths entries.
Proof.
  revert issues.
  induction entries as [| [rel kind] rest IH]; intros issues;
    [reflexivity |].
  rewrite scan_entries_step.
  cbn [scan_entries expected_trace flat_map fst].
  rewrite trace_bind. cbn [tell trace outcome fst snd app].
  unfold scanned. cbn [snd fst].
  destruct (should_ignore_path path_match rel allow_paths) as [ignored | e]
    eqn:Hi; cbn [rbind]; [| discriminate].
  destruct kind as [| read_text]; rewrite trace_bind, outcome_lift;
    cbn [lift trace fst app].
  - intros Hrest. f_equal.
    destruct ignored; [destruct rel |]; now apply IH.
  - destruct ignored.
    + intros Hrest. f_equal. now apply IH.
    + destruct (screen re_search rules _ []) as [found | e] eqn:Hf;
        cbn [rbind]; [| discriminate].
      intros Hrest. f_equal.
      rewrite trace_bind, scan_file_trace, scan_file_outcome, Hf.
      cbn [app]. f_equal. now apply IH.
Qed.

Lemma expected_trace_visits path_match allow_paths entries :
  List.length
    (filter (fun ev => match ev with Visit _ => true | _ => false end)
       (expected_trace path_match allow_paths entries))
  = List.length entries.
Proof.
  induction entries as [| e rest IH]; [reflexivity |].
  change (expected_trace path_match allow_paths (e :: rest))
    with ((Visit (fst e)
           :: if scanned path_match allow_paths e
              then [Read (fst e)] else [])
          ++ expected_trace path_match allow_paths rest).
  rewrite filter_app, length_app, IH.
  now destruct (scanned path_match allow_paths e).
Qed.

(** X12.  A scan that returns has visited every file and directory below
    the root once, in the order of the listing, each under a non-empty
    relative path, and has read exactly the files the path filter did not
    ignore, each right after its visit. *)
Theorem traversal_visits_every_entry
    (re_search : string -> string -> result bool)
    (path_match : Path -> string -> result bool)
    (root : Path) (t : root_state) (allow_paths rules : list string)
    (found : list finding) :
  outcome (scan_repository re_search path_match root t allow_paths rules)
  = Ok found ->
  let events :=
    trace (scan_repository re_search path_match root t allow_paths rules) in
  events = expected_trace path_match allow_paths (rglob t)
  /\ List.length
       (filter (fun ev => match ev with Visit _ => true | _ => false end)
          events)
     = tree_count t
  /\ (forall rel, In (Visit rel) events -> rel <> [])
  /\ (forall rel,
         In (Read rel) events <->
         exists read_text,
           In (rel, IsFile read_text) (rglob t)
           /\ should_ignore_path path_match rel allow_paths = Ok false).
Proof.
  intros Hfound events.
  assert (Hev : events = expected_trace path_match allow_paths (rglob t))
    by (now apply scan_entries_trace with found).
  assert (Hnonempty : forall e, In e (rglob t) -> fst e <> []).
  { destruct t as [| | | children]; simpl; try tauto.
    intros e He. apply in_app_or in He.
    destruct He as [He | He]; [now apply listing_nonempty in He |].
    apply in_flat_map in He. destruct He as [child [_ He]].
    now apply rglob_node_nonempty in He. }
  split; [exact Hev | rewrite Hev; split; [| split]].
  - rewrite <- rglob_length. apply expected_trace_visits.
  - intros rel Hin. unfold expected_trace in Hin.
    apply in_flat_map in Hin. destruct Hin as [e [He Hin]].
    destruct Hin as [H | Hin].
    + injection H as <-. now apply Hnonempty.
    + destruct (scanned path_match allow_paths e);
        [destruct Hin as [H | []]; discriminate | contradiction].
  - intros rel. unfold expected_trace. rewrite in_flat_map. split.
    + intros [[rel0 kind] [He Hin]]. destruct Hin as [H | Hin];
        [discriminate |].
      unfold scanned in Hin. simpl in Hin.
      destruct kind as [| read_text]; [contradiction |].
      destruct (should_ignore_path path_match rel0 allow_paths)
        as [[|] | e] eqn:Hi; try contradiction.
      destruct Hin as [H | []]. injection H as <-.
      now exists read_text.
    + intros [read_text [He Hi]]. exists (rel, IsFile read_text).
      split; [exact He |]. right. unfold scanned. simpl. rewrite Hi.
      now left.
Qed.

Lemma traversal_visits_every_entry_witness :
  List.length
    (filter (fun ev => match ev with Visit _ => true | _ => false end)
       (trace (scan_repository py_re_search py_path_match sample_root
                 sample_tree [] [])))
  = tree_count sample_tree.
Proof.
  refine (proj1 (proj2 (traversal_visits_every_entry
                          py_re_search py_path_match sample_root sample_tree
                          [] [] _ _))).
  vm_compute. reflexivity.
Defined.

(** ** The run as a whole *)

Lemma scan_trace_is_quiet re_search path_match root t allow_paths rules ev :
  In ev (trace (scan_repository re_search path_match root t allow_paths
                  rules)) ->
  (forall m, ev <> Print m) /\ (forall target r, ev <> WriteReport target r).
Proof.
  intros Hev. apply scan_entries_events in Hev.
  destruct Hev as [rel [_ [-> | ->]]]; split; discriminate.
Qed.

(** X13.  [main] never raises.  It prints one message, as its last action,
    and ends with status 2 after an error message, having written no
    report; otherwise it has written one report, holding the findings of
    the scan, right before the message, and ends with status 1 when there
    are findings, whatever their severity, and with status 0 when there
    are none. *)
Theorem main_ends_with_one_message
    (re_search : string -> string -> result bool)
    (path_match : Path -> string -> result bool) (w : world) :
  exists events m status,
    main re_search path_match w = (events ++ [Print m], Ok status)
    /\ (forall m', ~ In (Print m') events)
    /\ ((exists e,
           m = RuntimeErrorMessage e /\ status = 2%Z
           /\ forall target r, ~ In (WriteReport target r) events)
        \/ (exists visits found,
              events = visits
                       ++ [WriteReport (arg_output w) (report_of w found)]
              /\ (forall target r, ~ In (WriteReport target r) visits)
              /\ m = closing_message found
              /\ status = exit_status found
              /\ (found = [] -> m = CleanMessage /\ status = 0%Z)
              /\ (found <> [] ->
                  m = FindingsMessage (List.length found)
                  /\ status = 1%Z))).
Proof.
  destruct (load_allowlist (arg_allowlist w)) as [[allow_paths rules] | e]
    eqn:Hload.
  2: { exists [], (RuntimeErrorMessage e), 2%Z.
       split; [now apply main_load_fails | split; [intros m' [] |]].
       left. exists e. repeat split. intros target r []. }
  pose proof (scan_trace_is_quiet re_search path_match (arg_root w) (tree w)
                allow_paths rules) as Hquiet.
  set (run := scan_repository re_search path_match (arg_root w) (tree w)
                allow_paths rules) in *.
  assert (Hfail : forall e,
            main re_search path_match w
            = (trace run ++ [Print (RuntimeErrorMessage e)], Ok 2%Z) ->
            exists events m status,
              main re_search path_match w = (events ++ [Print m], Ok status)
              /\ (forall m', ~ In (Print m') events)
              /\ ((exists e0,
                     m = RuntimeErrorMessage e0 /\ status = 2%Z
                     /\ forall target r, ~ In (WriteReport target r) events)
                  \/ (exists visits found,
                        events = visits
                                 ++ [WriteReport (arg_output w)
                                       (report_of w found)]
                        /\ (forall target r,
                               ~ In (WriteReport target r) visits)
                        /\ m = closing_message found
                        /\ status = exit_status found
                        /\ (found = [] -> m = CleanMessage /\ status = 0%Z)
                        /\ (found <> [] ->
                            m = FindingsMessage (List.length found)
                            /\ status = 1%Z)))).
  { intros e Hmain. exists (trace run), (RuntimeErrorMessage e), 2%Z.
    split; [exact Hmain | split].
    - intros m' Hin. now apply (proj1 (Hquiet _ Hin) m').
    - left. exists e. repeat split.
      intros target r Hin. now apply (proj2 (Hquiet _ Hin) target r). }
  destruct (outcome run) as [found | e] eqn:Hscan.
  2: { apply (Hfail e).
       exact (main_scan_fails re_search path_match w _ _ e Hload Hscan). }
  destruct (sink w) as [[] | e] eqn:Hsink.
  2: { apply (Hfail e).
       exact (main_sink_fails re_search path_match w _ _ found e Hload Hscan
                Hsink). }
  exists (trace run ++ [WriteReport (arg_output w) (report_of w found)]),
    (closing_message found), (exit_status found).
  split; [| split].
  - rewrite (main_reports re_search path_match w _ _ found Hload Hscan Hsink).
    now rewrite <- app_assoc.
  - intros m' Hin. apply in_app_or in Hin.
    destruct Hin as [Hin | [Hin | []]]; [| discriminate].
    now apply (proj1 (Hquiet _ Hin) m').
  - right. exists (trace run), found.
    split; [reflexivity | split; [| split; [reflexivity | split;
      [reflexivity | split]]]].
    + intros target r Hin. now apply (proj2 (Hquiet _ Hin) target r).
    + now intros ->.
    + now destruct found.
Qed.

Lemma main_ends_with_one_message_witness :
  exists events m status,
    main py_re_search py_path_match (sample_world Absent contacts_tree)
    = (events ++ [Print m], Ok status)
    /\ (forall m', ~ In (Print m') events)
    /\ ((exists e,
           m = RuntimeErrorMessage e /\ status = 2%Z
           /\ forall target r, ~ In (WriteReport target r) events)
        \/ (exists visits found,
              events = visits
                       ++ [WriteReport
                             (arg_output (sample_world Absent contacts_tree))
                             (report_of (sample_world Absent contacts_tree)
                                found)]
              /\ (forall target r, ~ In (WriteReport target r) visits)
              /\ m = closing_message found
              /\ status = exit_status found
              /\ (found = [] -> m = CleanMessage /\ status = 0%Z)
              /\ (found <> [] ->
                  m = FindingsMessage (List.length found)
                  /\ status = 1%Z))).
Proof.
  exact (main_ends_with_one_message py_re_search py_path_match
           (sample_world Absent contacts_tree)).
Defined.

Lemma count_low_is_zero found :
  Forall (fun f => In (f_type f) KINDS
                   /\ f_severity f = severity_of (f_type f)) found ->
  count_severity "low" found = 0
  /\ count_severity "high" found + count_severity "medium" found
     = List.length found.
Proof.
  unfold count_severity.
  induction 1 as [| f rest [Hkind Hsev] _ [IHlow IHsum]];
    [split; reflexivity |].
  cbn [filter]. rewrite Hsev. simpl in Hkind.
  destruct Hkind as [<- | [<- | [<- | []]]]; cbn; split;
    try exact IHlow; lia.
Qed.

(** X14.  No pattern of the catalogue has the severity low: in every
    report the program writes the count under low is 0 and the counts
    under high and medium add up to the total. *)
Theorem low_count_is_zero
    (re_search : string -> string -> result bool)
    (path_match : Path -> string -> result bool)
    (w : world) (target : Path) (r : report) :
  In (WriteReport target r) (trace (main re_search path_match w)) ->
  by_severity (report_summary r)
  = [("high", count_severity "high" (issues r));
     ("medium", count_severity "medium" (issues r));
     ("low", 0)]
  /\ count_severity "high" (issues r) + count_severity "medium" (issues r)
     = total_findings (report_summary r)
  /\ forall f, In f (issues r) -> f_severity f <> "low".
Proof.
  intros Hw. apply main_written in Hw.
  destruct Hw as (allow_paths & rules & _ & Hfound & Hr & _).
  assert (Hkinds : Forall (fun f => In (f_type f) KINDS
                                    /\ f_severity f = severity_of (f_type f))
                     (issues r)).
  { apply Forall_forall. intros f Hf.
    exact (scan_findings_kinds _ _ _ _ _ _ _ f Hfound Hf). }
  destruct (count_low_is_zero (issues r) Hkinds) as [Hlow Hsum].
  assert (Hs : report_summary r = summarize (issues r))
    by (rewrite Hr at 1; reflexivity).
  rewrite Hs. simpl. rewrite Hlow.
  split; [reflexivity | split; [exact Hsum |]].
  intros f Hf.
  destruct (proj1 (Forall_forall _ _) Hkinds f Hf) as [Hkind ->].
  simpl in Hkind.
  destruct Hkind as [<- | [<- | [<- | []]]]; discriminate.
Qed.

Lemma low_count_is_zero_witness :
  count_severity "high" [email_finding; phone_finding]
  + count_severity "medium" [email_finding; phone_finding]
  = 2.
Proof.
  refine (proj1 (proj2 (low_count_is_zero py_re_search py_path_match
                          (sample_world Absent contacts_tree)
                          ["repo"; "reports"; "pii_report.json"]
                          (report_of (sample_world Absent contacts_tree)
                             [email_finding; phone_finding]) _))).
  vm_compute. do 2 right. left. reflexivity.
Defined.

